(** * DPDK EAL trace utilities (lib/librte_eal/common/eal_common_trace_utils.c)

    A shallow embedding of the session-lifecycle and persistence helpers of
    the EAL trace library, and the properties its specification states
    about them.  C integers are [Z] with the conversions written out,
    character buffers are [list ascii], the process heap, the directory
    tree and the files are finite maps and sets, and every call into the
    operating system goes through an explicit [world]. *)

From Stdlib Require Import ZArith List Ascii String DecimalString DecimalZ Lia.
From stdpp Require Import base numbers list option gmap strings.

Local Open Scope Z_scope.

(** ** C scalars and strings *)

Definition wrap (bits : Z) (z : Z) : Z := z mod 2 ^ bits.
Definition to_uint8 (z : Z) : Z := wrap 8 z.
Definition to_uint16 (z : Z) : Z := wrap 16 z.
Definition to_uint32 (z : Z) : Z := wrap 32 z.
Definition to_uint64 (z : Z) : Z := wrap 64 z.

(** Conversion to a (32-bit, two's complement) [int]. *)
Definition to_int (z : Z) : Z :=
  let u := wrap 32 z in if u <? 2 ^ 31 then u else u - 2 ^ 32.

Definition NUL : ascii := Ascii.zero.

Definition code (c : ascii) : Z := Z.of_nat (nat_of_ascii c).

(** A C string is the list of its characters, the terminating NUL left
    implicit; a buffer is the list of all its bytes. *)
Definition cstring := list ascii.

Definition lit (s : string) : cstring := list_ascii_of_string s.

(** The C string held by a buffer: its bytes up to the first NUL. *)
Fixpoint cstr (buf : list ascii) : cstring :=
  match buf with
  | [] => []
  | c :: rest => if decide (c = NUL) then [] else c :: cstr rest
  end.

Definition strlen (s : cstring) : Z := Z.of_nat (length (cstr s)).

(** [strncmp s1 s2 n]: reading past the end of a list reads the
    terminating NUL. *)
Fixpoint strncmp (s1 s2 : list ascii) (n : nat) : Z :=
  match n with
  | O => 0
  | S n' =>
      let c1 := hd NUL s1 in
      let c2 := hd NUL s2 in
      if decide (c1 = c2)
      then if decide (c1 = NUL) then 0 else strncmp (tl s1) (tl s2) n'
      else code c1 - code c2
  end.

(** Bytes [data] stored into [buf] from index [off] on. *)
Definition store_at (buf : list ascii) (off : nat) (data : list ascii) : list ascii :=
  take off buf ++ data ++ drop (off + length data)%nat buf.

(** Decimal digits of an [int], as printf's %d gives them. *)
Definition decimal (z : Z) : cstring := lit (NilEmpty.string_of_int (Z.to_int z)).

Definition digit (d : Z) : ascii := ascii_of_nat (Z.to_nat (48 + d)).

(** Two digits, zero padded (strftime's %m, %d, %I, %M, %S). *)
Definition pad2 (z : Z) : cstring := [digit (z / 10 mod 10); digit (z mod 10)].

(** ** errno values (Linux, errno.h) *)

Definition E2BIG : Z := 7.
Definition ENOMEM : Z := 12.
Definition EACCES : Z := 13.
Definition EEXIST : Z := 17.
Definition EINVAL : Z := 22.
Definition ENAMETOOLONG : Z := 36.

Definition PATH_MAX : Z := 4096.

(** ** The process and the operating system *)

Definition path := cstring.
Definition loc := positive.

(** Result of a system call that fails with an errno value; POSIX error
    numbers are positive. *)
Inductive res (A : Type) : Type :=
| Ok (a : A)
| Err (e : positive).
Arguments Ok {A} a.
Arguments Err {A} e.

(** struct timespec and the fields of struct tm that strftime reads. *)
Record timespec := Timespec { tv_sec : Z; tv_nsec : Z }.

Record tm := Tm {
  tm_sec : Z; tm_min : Z; tm_hour : Z;
  tm_mday : Z; tm_mon : Z; tm_year : Z }.

(** What the process does to the outside, in program order. *)
Inductive event : Type :=
| EvErr (msg : cstring)
| EvInfo (msg : cstring)
| EvMkdir (p : path) (failure : option positive)
| EvFopen (p : path) (failure : option positive)
| EvDump (p : path) (rc : Z)
| EvFwrite (p : path) (data : list ascii) (items : Z)
| EvFclose (p : path) (failure : option positive)
| EvLock
| EvUnlock.

(** The state outside struct trace: both errno variables, the number of
    calls made into the environment so far, the directories and files on
    disk, the heap blocks owned by the process, and the event trail. *)
Record world := World {
  errno : Z;
  rte_errno : Z;
  ticks : nat;
  dirs : gset path;
  files : gmap path (list ascii);
  heap : gmap loc (list ascii);
  trail : list event }.

(** The environment: what the hardware, the C library and the kernel
    answer.  An answer may depend on when the call is made ([ticks]). *)
Record env := Env {
  tsc_at : nat -> Z;
  clock_gettime_at : nat -> res timespec;
  time_at : nat -> res Z;
  localtime_of : Z -> res tm;
  calloc_ok_at : nat -> bool;
  getenv_HOME : option cstring;
  getpwuid_dir : option cstring;
  hugefile_prefix : cstring;
  mkdir_fault_at : nat -> path -> option positive;
  fopen_fault_at : nat -> path -> option positive;
  fwrite_short_at : nat -> path -> option nat;
  fclose_fault_at : nat -> path -> option positive;
  metadata_dump_at : nat -> Z * list ascii }.

Definition set_errno (e : Z) (w : world) : world :=
  World e (rte_errno w) (ticks w) (dirs w) (files w) (heap w) (trail w).
Definition set_rte_errno (e : Z) (w : world) : world :=
  World (errno w) e (ticks w) (dirs w) (files w) (heap w) (trail w).
Definition tick (w : world) : world :=
  World (errno w) (rte_errno w) (S (ticks w)) (dirs w) (files w) (heap w) (trail w).
Definition set_dirs (d : gset path) (w : world) : world :=
  World (errno w) (rte_errno w) (ticks w) d (files w) (heap w) (trail w).
Definition set_files (f : gmap path (list ascii)) (w : world) : world :=
  World (errno w) (rte_errno w) (ticks w) (dirs w) f (heap w) (trail w).
Definition set_heap (h : gmap loc (list ascii)) (w : world) : world :=
  World (errno w) (rte_errno w) (ticks w) (dirs w) (files w) h (trail w).
Definition emit (e : event) (w : world) : world :=
  World (errno w) (rte_errno w) (ticks w) (dirs w) (files w) (heap w) (trail w ++ [e]).

(** trace_err: one line on the error log. *)
Definition trace_err (msg : cstring) (w : world) : world := emit (EvErr msg) w.

(** ** struct trace and the trace point registry (eal_trace.h) *)

(** A registered trace point: the name array and the word its handle
    points to. *)
Record trace_point := TracePoint { tp_name : list ascii; tp_handle : Z }.

(** A worker's trace memory: the write offset, and the bytes that start
    at the stream header (the header, then the trace memory). *)
Record trace_header := TraceHeader { hdr_offset : Z; hdr_stream : list ascii }.

Record trace := Trace {
  nb_trace_points : Z;
  uuid : list Z;
  dir : list ascii;
  dir_offset : Z;
  nb_args : Z;
  args : list (option loc);
  epoch_sec : Z;
  epoch_nsec : Z;
  uptime_ticks : Z;
  nb_trace_mem_list : Z;
  lcore_meta : list trace_header;
  lock : bool }.

Definition set_uuid (u : list Z) (t : trace) : trace :=
  Trace (nb_trace_points t) u (dir t) (dir_offset t) (nb_args t) (args t)
    (epoch_sec t) (epoch_nsec t) (uptime_ticks t) (nb_trace_mem_list t)
    (lcore_meta t) (lock t).
Definition set_dir (d : list ascii) (t : trace) : trace :=
  Trace (nb_trace_points t) (uuid t) d (dir_offset t) (nb_args t) (args t)
    (epoch_sec t) (epoch_nsec t) (uptime_ticks t) (nb_trace_mem_list t)
    (lcore_meta t) (lock t).
Definition set_dir_offset (o : Z) (t : trace) : trace :=
  Trace (nb_trace_points t) (uuid t) (dir t) o (nb_args t) (args t)
    (epoch_sec t) (epoch_nsec t) (uptime_ticks t) (nb_trace_mem_list t)
    (lcore_meta t) (lock t).
Definition set_args (n : Z) (a : list (option loc)) (t : trace) : trace :=
  Trace (nb_trace_points t) (uuid t) (dir t) (dir_offset t) n a
    (epoch_sec t) (epoch_nsec t) (uptime_ticks t) (nb_trace_mem_list t)
    (lcore_meta t) (lock t).
Definition set_epoch (s ns up : Z) (t : trace) : trace :=
  Trace (nb_trace_points t) (uuid t) (dir t) (dir_offset t) (nb_args t) (args t)
    s ns up (nb_trace_mem_list t) (lcore_meta t) (lock t).
Definition set_lock (b : bool) (t : trace) : trace :=
  Trace (nb_trace_points t) (uuid t) (dir t) (dir_offset t) (nb_args t) (args t)
    (epoch_sec t) (epoch_nsec t) (uptime_ticks t) (nb_trace_mem_list t)
    (lcore_meta t) b.

(** ** Trace point validator *)

Section Validator.

(** The size of the name array of a trace point (eal_trace.h). *)
Variable TRACE_POINT_NAME_SIZE : nat.

(** The loop of trace_entry_compare, [count] being the matches seen so
    far: it stops as soon as the count exceeds one. *)
Fixpoint trace_entry_compare_loop (tp_list : list trace_point)
    (name : list ascii) (count : Z) : bool :=
  match tp_list with
  | [] => false
  | tp :: rest =>
      let count :=
        if decide (strncmp (tp_name tp) name TRACE_POINT_NAME_SIZE = 0)
        then count + 1 else count in
      if 1 <? count then true
      else trace_entry_compare_loop rest name count
  end.

Definition trace_entry_compare (tp_list : list trace_point)
    (name : list ascii) (w : world) : bool * world :=
  if trace_entry_compare_loop tp_list name 0
  then (true,
        set_rte_errno EEXIST
          (trace_err (lit "found duplicate entry " ++ cstr name) w))
  else (false, w).

(** The loop of trace_has_duplicate_entry over the points not visited yet. *)
Fixpoint trace_has_duplicate_entry_loop (tp_list pending : list trace_point)
    (w : world) : bool * world :=
  match pending with
  | [] => (false, w)
  | tp :: rest =>
      let '(dup, w') := trace_entry_compare tp_list (tp_name tp) w in
      if dup then (true, w')
      else trace_has_duplicate_entry_loop tp_list rest w'
  end.

Definition trace_has_duplicate_entry (tp_list : list trace_point)
    (w : world) : bool * world :=
  trace_has_duplicate_entry_loop tp_list tp_list w.

(** Two registered points share a name: their names compare equal under
    strncmp over the name size. *)
Definition shares_name (tps : list trace_point) : Prop :=
  exists i j tpi tpj,
    i <> j /\ tps !! i = Some tpi /\ tps !! j = Some tpj /\
    strncmp (tp_name tpi) (tp_name tpj) TRACE_POINT_NAME_SIZE = 0.

(** The world after the duplicate [name] was reported. *)
Definition duplicate_reported (name : list ascii) (w : world) : world :=
  set_rte_errno EEXIST (trace_err (lit "found duplicate entry " ++ cstr name) w).

End Validator.

(** ** Session identity: the UUID *)

Section Uuid.

(** The mask of the size field of a trace point word
    (__RTE_TRACE_FIELD_SIZE_MASK, rte_trace_point.h), and the initialiser
    macro RTE_UUID_INIT (rte_uuid.h) that lays five numbers out as the 16
    bytes of a UUID. *)
Variable RTE_TRACE_FIELD_SIZE_MASK : Z.
Variable RTE_UUID_INIT : Z -> Z -> Z -> Z -> Z -> list Z.

(** The uint16_t [sz] read from a handle. *)
Definition field_size (tp : trace_point) : Z :=
  to_uint16 (Z.land (tp_handle tp) RTE_TRACE_FIELD_SIZE_MASK).

(** The accumulation of [sz_total], a uint64_t. *)
Fixpoint sz_total_loop (tp_list : list trace_point) (sz_total : Z) : Z :=
  match tp_list with
  | [] => sz_total
  | tp :: rest => sz_total_loop rest (to_uint64 (sz_total + field_size tp))
  end.

Definition trace_uuid_generate (tp_list : list trace_point) (t : trace) : trace :=
  let sz_total := sz_total_loop tp_list 0 in
  set_uuid
    (RTE_UUID_INIT sz_total (nb_trace_points t) 0x4370 0x8f50 0x222ddd514176)
    t.

(** The sum of the size fields of a registry. *)
Fixpoint total_size (tp_list : list trace_point) : Z :=
  match tp_list with
  | [] => 0
  | tp :: rest => field_size tp + total_size rest
  end.

End Uuid.

(** Modelled from the spec: the macro RTE_UUID_INIT is declared in
    rte_uuid.h, which is not among the sources.  The specification calls
    its result a standard UUID byte layout: a 32-bit, then three 16-bit,
    then a 48-bit field, each stored most significant byte first. *)
Definition uuid_byte (x : Z) (shift : Z) : Z := Z.land (Z.shiftr x shift) 0xff.

Definition rte_uuid_init_layout (a b c d e : Z) : list Z :=
  [ uuid_byte a 24; uuid_byte a 16; uuid_byte a 8; uuid_byte a 0;
    uuid_byte b 8; uuid_byte b 0;
    uuid_byte c 8; uuid_byte c 0;
    uuid_byte d 8; uuid_byte d 0;
    uuid_byte e 40; uuid_byte e 32; uuid_byte e 24; uuid_byte e 16;
    uuid_byte e 8; uuid_byte e 0 ].

(** ** The heap *)

(** calloc(1, size): a fresh zeroed block, or NULL when the environment
    refuses the allocation. *)
Definition calloc (E : env) (size : nat) (w : world) : option loc * world :=
  if calloc_ok_at E (ticks w)
  then
    let p := fresh (dom (heap w)) in
    (Some p, set_heap (<[p := replicate size NUL]> (heap w)) (tick w))
  else (None, set_errno ENOMEM (tick w)).

(** free(p), for a block the process owns. *)
Definition free (p : loc) (w : world) : world := set_heap (delete p (heap w)) w.

(** memcpy(p, src, n) into the block at [p]. *)
Definition memcpy (p : loc) (src : list ascii) (w : world) : world :=
  set_heap (alter (fun block => store_at block 0 src) p (heap w)) w.

(** ** Argument store *)

Section Args.

(** The capacity of the argument array of struct trace_args (eal_trace.h). *)
Variable TRACE_MAX_ARGS : Z.

Definition eal_trace_args_save (E : env) (optarg : cstring) (t : trace)
    (w : world) : Z * trace * world :=
  let nb_args := nb_args t in
  if TRACE_MAX_ARGS <=? nb_args
  then (0, t,
        trace_err (lit "ignoring trace " ++ cstr optarg ++ lit " as limit exceeds") w)
  else
    match calloc E (Z.to_nat (strlen optarg + 1)) w with
    | (None, w1) =>
        (- ENOMEM, t,
         trace_err (lit "fail to allocate memory for " ++ cstr optarg) w1)
    | (Some trace_args, w1) =>
        let w2 := memcpy trace_args (cstr optarg) w1 in
        (0,
         set_args (to_uint8 (nb_args + 1))
           (<[Z.to_nat nb_args := Some trace_args]> (args t)) t,
         w2)
    end.

End Args.

(** The loop of eal_trace_args_free from index [i], with [todo] entries
    left.  [None] is undefined behaviour: a read outside the array, or
    free() of a pointer the process does not own. *)
Fixpoint args_free_loop (todo i : nat) (a : list (option loc)) (w : world)
    : option (list (option loc) * world) :=
  match todo with
  | O => Some (a, w)
  | S todo' =>
      match a !! i with
      | None => None
      | Some None => args_free_loop todo' (S i) a w
      | Some (Some p) =>
          match heap w !! p with
          | None => None
          | Some _ => args_free_loop todo' (S i) (<[i := None]> a) (free p w)
          end
      end
  end.

Definition eal_trace_args_free (t : trace) (w : world) : option (trace * world) :=
  match args_free_loop (Z.to_nat (nb_args t)) 0 (args t) w with
  | Some (a, w') => Some (set_args (nb_args t) a t, w')
  | None => None
  end.

(** The entries the loop of eal_trace_args_free visits are owned heap
    blocks, no block being stored twice. *)
Definition owned_from (i todo : nat) (a : list (option loc)) (w : world) : Prop :=
  (i + todo <= length a)%nat /\
  (forall k p, (i <= k < i + todo)%nat -> a !! k = Some (Some p) ->
     is_Some (heap w !! p)) /\
  (forall k l p, (i <= k < i + todo)%nat -> (i <= l < i + todo)%nat ->
     a !! k = Some (Some p) -> a !! l = Some (Some p) -> k = l).

Definition args_owned (t : trace) (w : world) : Prop :=
  owned_from 0 (Z.to_nat (nb_args t)) (args t) w.

(** ** Clock correlator *)

Definition rte_get_tsc_cycles (E : env) (w : world) : Z * world :=
  (to_uint64 (tsc_at E (ticks w)), tick w).

(** clock_gettime(CLOCK_REALTIME, &epoch); [epoch] is left as it was on
    failure. *)
Definition clock_gettime (E : env) (epoch : timespec) (w : world)
    : Z * timespec * world :=
  match clock_gettime_at E (ticks w) with
  | Ok ts => (0, ts, tick w)
  | Err e => (-1, epoch, set_errno (Z.pos e) (tick w))
  end.

Definition trace_epoch_time_save (E : env) (t : trace) (w : world)
    : Z * trace * world :=
  let epoch := Timespec 0 0 in
  let '(start, w1) := rte_get_tsc_cycles E w in
  let '(rc, epoch, w2) := clock_gettime E epoch w1 in
  if rc <? 0
  then (-1, t, trace_err (lit "failed to get the epoch time") w2)
  else
    let '(end_, w3) := rte_get_tsc_cycles E w2 in
    let avg := Z.shiftr (to_uint64 (start + end_)) 1 in
    (0,
     set_epoch (to_uint64 (tv_sec epoch)) (to_uint64 (tv_nsec epoch)) avg t,
     w3).

(** ** C library and EAL string helpers *)

(** Modelled from the spec: rte_strscpy is defined in
    eal_common_string_fns.c, which is not among the sources.  The
    specification calls its failure a truncation-detected code and has
    the file prefix truncated to a fixed length by it, and
    trace_session_name_generate goes on to use the destination after that
    failure: the copy stores as many bytes of the source as fit, ends
    them with a NUL, and returns the length copied, or -E2BIG (also left
    in rte_errno) when the source was cut short.  The destination is the
    buffer [buf] from index [off] on. *)
Definition rte_strscpy (buf : list ascii) (off : nat) (src : cstring)
    (dsize : nat) (w : world) : Z * list ascii * world :=
  let s := cstr src in
  if (length s <? dsize)%nat
  then (Z.of_nat (length s), store_at buf off (s ++ [NUL]), w)
  else
    (- E2BIG,
     match dsize with
     | O => buf
     | S room => store_at buf off (take room s ++ [NUL])
     end,
     set_rte_errno E2BIG w).

(** snprintf(buf, size, ...), given the fully formatted text: the text
    that fits is stored with its NUL, the full length is returned. *)
Definition snprintf (size : Z) (text : cstring) : Z * cstring :=
  (Z.of_nat (length text), take (Z.to_nat (size - 1)) text).

(** One conversion of strftime in the C locale. *)
Definition strftime_conv (c : ascii) (r : tm) : cstring :=
  if decide (c = "Y"%char) then decimal (tm_year r + 1900)
  else if decide (c = "m"%char) then pad2 (tm_mon r + 1)
  else if decide (c = "d"%char) then pad2 (tm_mday r)
  else if decide (c = "p"%char) then (if tm_hour r <? 12 then lit "AM" else lit "PM")
  else if decide (c = "I"%char) then pad2 ((tm_hour r + 11) mod 12 + 1)
  else if decide (c = "M"%char) then pad2 (tm_min r)
  else if decide (c = "S"%char) then pad2 (tm_sec r)
  else ["%"%char; c].

Fixpoint strftime_text (fmt : list ascii) (r : tm) : cstring :=
  match fmt with
  | [] => []
  | c :: rest =>
      match rest with
      | c' :: rest' =>
          if decide (c = "%"%char) then strftime_conv c' r ++ strftime_text rest' r
          else c :: strftime_text rest r
      | [] => [c]
      end
  end.

(** strftime(buf + off, max, fmt, r): the length written, or 0 with the
    buffer left alone when the text and its NUL do not fit in [max]. *)
Definition strftime (buf : list ascii) (off : nat) (max : Z) (fmt : cstring)
    (r : tm) : Z * list ascii :=
  let text := strftime_text fmt r in
  if Z.of_nat (length text) <? max
  then (Z.of_nat (length text), store_at buf off (text ++ [NUL]))
  else (0, buf).

(** time(NULL) and localtime(&tm). *)
Definition time (E : env) (w : world) : Z * world :=
  match time_at E (ticks w) with
  | Ok now => (now, tick w)
  | Err e => (-1, set_errno (Z.pos e) (tick w))
  end.

Definition localtime (E : env) (clock : Z) (w : world) : option tm * world :=
  match localtime_of E clock with
  | Ok r => (Some r, w)
  | Err e => (None, set_errno (Z.pos e) w)
  end.

(** strerror, as far as the log needs it: the number itself. *)
Definition strerror (e : Z) : cstring := decimal e.

(** mkdir(p, 0700): refused by the environment, or because [p] is there
    already, or done. *)
Definition mkdir (E : env) (p : path) (w : world) : Z * world :=
  match mkdir_fault_at E (ticks w) p with
  | Some e => (-1, emit (EvMkdir p (Some e)) (set_errno (Z.pos e) (tick w)))
  | None =>
      if decide (p ∈ dirs w)
      then (-1, emit (EvMkdir p (Some 17%positive)) (set_errno EEXIST (tick w)))
      else (0, emit (EvMkdir p None) (set_dirs ({[p]} ∪ dirs w) (tick w)))
  end.

(** ** Directory manager *)

(** The offset of the path buffer lies inside the buffer, whose size
    fits an int. *)
Definition dir_wf (t : trace) : Prop :=
  0 <= dir_offset t <= Z.of_nat (length (dir t)) /\
  Z.of_nat (length (dir t)) < 2 ^ 31.


Section Directory.

(** The room kept for the file prefix in a session name and the size of
    the session buffer (eal_trace.h). *)
Variable TRACE_PREFIX_LEN : Z.
Variable TRACE_DIR_STR_LEN : Z.

(** The [fail] label of trace_session_name_generate. *)
Definition session_name_fail (trace_dir : list ascii) (w : world)
    : Z * list ascii * world :=
  let w' := set_rte_errno (errno w) w in
  (- rte_errno w', trace_dir, w').

Definition trace_session_name_generate (E : env) (trace_dir : list ascii)
    (w : world) : Z * list ascii * world :=
  let '(tm_, w1) := time E w in
  if decide (to_int tm_ = -1) then session_name_fail trace_dir w1
  else
    match localtime E tm_ w1 with
    | (None, w2) => session_name_fail trace_dir w2
    | (Some tm_result, w2) =>
        let '(rc, trace_dir, w3) :=
          rte_strscpy trace_dir 0 (hugefile_prefix E)
            (Z.to_nat TRACE_PREFIX_LEN) w2 in
        let rc := if decide (rc = - E2BIG) then TRACE_PREFIX_LEN else rc in
        let trace_dir := <[Z.to_nat rc := "-"%char]> trace_dir in
        let rc := rc + 1 in
        let '(rc, trace_dir) :=
          strftime trace_dir (Z.to_nat rc) (TRACE_DIR_STR_LEN - rc)
            (lit "%Y-%m-%d-%p-%I-%M-%S") tm_result in
        if decide (rc = 0) then session_name_fail trace_dir w3
        else (rc, trace_dir, w3)
    end.

Definition trace_dir_update (str : cstring) (t : trace) (w : world)
    : Z * trace * world :=
  let remaining := to_int (Z.of_nat (length (dir t)) - dir_offset t) in
  let '(rc, d, w1) :=
    rte_strscpy (dir t) (Z.to_nat (dir_offset t)) str
      (Z.to_nat (to_uint64 remaining)) w in
  if rc <? 0 then (rc, set_dir d t, w1)
  else (rc, set_dir_offset (to_int (dir_offset t + rc)) (set_dir d t), w1).

(** trace_dir_default_path_get: the default base path is left in the
    block [dir_path]. *)
Definition trace_dir_default_path_get (E : env) (dir_path : loc) (t : trace)
    (w : world) : Z * world :=
  let size := to_uint32 (Z.of_nat (length (dir t))) in
  let home_dir :=
    match getenv_HOME E with
    | Some home => Some home
    | None => getpwuid_dir E
    end in
  match home_dir with
  | None => (- EINVAL, w)
  | Some home_dir =>
      let '(n, text) := snprintf size (cstr home_dir ++ lit "/dpdk-traces/") in
      let w1 := memcpy dir_path (text ++ [NUL]) w in
      if n <? 0 then (- ENAMETOOLONG, w1) else (0, w1)
  end.

(** The first part of trace_mkdir: the default base path, when no
    directory was configured. *)
Definition trace_mkdir_default (E : env) (t : trace) (w : world)
    : Z * trace * world :=
  if decide (dir_offset t = 0)
  then
    match calloc E (length (dir t)) w with
    | (None, w1) => (- ENOMEM, t, trace_err (lit "fail to allocate memory") w1)
    | (Some dir_path, w1) =>
        let '(rc, w2) := trace_dir_default_path_get E dir_path t w1 in
        if rc <? 0
        then (rc, t, free dir_path (trace_err (lit "fail to get default path") w2))
        else
          let '(rc, t1, w3) :=
            trace_dir_update (default [] (heap w2 !! dir_path)) t w2 in
          (if rc <? 0 then rc else 0, t1, free dir_path w3)
    end
  else (0, t, w).

Definition mkdir_failed (t : trace) (w : world) : Z * trace * world :=
  let w1 :=
    trace_err
      (lit "mkdir " ++ cstr (dir t) ++ lit " failed [" ++ strerror (errno w)
         ++ lit "]") w in
  let w2 := set_rte_errno (errno w1) w1 in
  (- rte_errno w2, t, w2).

(** The second part of trace_mkdir, from the session name on; [session]
    is the content of the local session buffer on entry. *)
Definition trace_mkdir_session (E : env) (session : list ascii) (t : trace)
    (w : world) : Z * trace * world :=
  let '(rc, session, w) := trace_session_name_generate E session w in
  if rc <? 0 then (rc, t, w)
  else
    let '(rc, t, w) := trace_dir_update session t w in
    if rc <? 0 then (rc, t, w)
    else
      let '(rc, w) := mkdir E (cstr (dir t)) w in
      if rc <? 0 then mkdir_failed t w
      else (0, t, emit (EvInfo (lit "Trace dir: " ++ cstr (dir t))) w).

Definition trace_mkdir (E : env) (session : list ascii) (t : trace) (w : world)
    : Z * trace * world :=
  let '(rc, t, w) := trace_mkdir_default E t w in
  if rc <? 0 then (rc, t, w)
  else
    let '(rc, w) := mkdir E (cstr (dir t)) w in
    if (rc <? 0) && negb (errno w =? EEXIST) then mkdir_failed t w
    else trace_mkdir_session E session t w.

End Directory.

(** ** Files *)

(** A stream open for writing is named by its path. *)
Definition FILE := path.

(** fopen(p, "w"): the file is created or emptied. *)
Definition fopen (E : env) (p : path) (w : world) : option FILE * world :=
  match fopen_fault_at E (ticks w) p with
  | Some e => (None, emit (EvFopen p (Some e)) (set_errno (Z.pos e) (tick w)))
  | None => (Some p, emit (EvFopen p None) (set_files (<[p := []]> (files w)) (tick w)))
  end.

Definition file_append (f : FILE) (data : list ascii) (w : world) : world :=
  set_files (<[f := default [] (files w !! f) ++ data]> (files w)) w.

(** fwrite(data, size, 1, f) with [size] the length of [data]: 1 when
    the item was written, 0 when it was not (nothing is asked for, or
    only the first bytes got through). *)
Definition fwrite (E : env) (data : list ascii) (f : FILE) (w : world) : Z * world :=
  match data with
  | [] => (0, w)
  | _ :: _ =>
      match fwrite_short_at E (ticks w) f with
      | Some n =>
          let part := take (Nat.min n (pred (length data))) data in
          (0, emit (EvFwrite f part 0) (file_append f part (tick w)))
      | None => (1, emit (EvFwrite f data 1) (file_append f data (tick w)))
      end
  end.

(** fclose(f): 0, or EOF with errno set. *)
Definition fclose (E : env) (f : FILE) (w : world) : Z * world :=
  match fclose_fault_at E (ticks w) f with
  | Some e => (-1, emit (EvFclose f (Some e)) (set_errno (Z.pos e) (tick w)))
  | None => (0, emit (EvFclose f None) (tick w))
  end.

(** rte_trace_metadata_dump(f) is defined in eal_common_trace_ctf.c,
    outside this file: the environment gives its result and the text it
    leaves in the file. *)
Definition rte_trace_metadata_dump (E : env) (f : FILE) (w : world) : Z * world :=
  let '(rc, text) := metadata_dump_at E (ticks w) in
  (rc, emit (EvDump f rc) (file_append f text (tick w))).

(** ** Persistence engine *)

Definition rte_spinlock_lock (t : trace) (w : world) : trace * world :=
  (set_lock true t, emit EvLock w).

Definition rte_spinlock_unlock (t : trace) (w : world) : trace * world :=
  (set_lock false t, emit EvUnlock w).

Definition trace_meta_save (E : env) (t : trace) (w : world) : Z * world :=
  let '(rc, file_name) := snprintf PATH_MAX (cstr (dir t) ++ lit "/metadata") in
  if rc <? 0 then (rc, w)
  else
    match fopen E file_name w with
    | (None, w1) => (- errno w1, w1)
    | (Some f, w1) =>
        let '(rc, w2) := rte_trace_metadata_dump E f w1 in
        let '(closed, w3) := fclose E f w2 in
        (if decide (closed = 0) then rc else - errno w3, w3)
    end.

Section Persistence.

(** sizeof(struct __rte_trace_stream_header) (rte_trace_point.h). *)
Variable STREAM_HEADER_SIZE : Z.

Definition trace_file_sz (hdr : trace_header) : Z :=
  to_int (STREAM_HEADER_SIZE + hdr_offset hdr).

(** The name snprintf leaves in file_name for region [cnt]. *)
Definition channel_name (t : trace) (cnt : Z) : Z * path :=
  snprintf PATH_MAX (cstr (dir t) ++ lit "/channel0_" ++ decimal (to_int cnt)).

(** The bytes fwrite is asked to write for a region. *)
Definition region_bytes (hdr : trace_header) : list ascii :=
  take (Z.to_nat (to_uint64 (trace_file_sz hdr))) (hdr_stream hdr).

Definition trace_mem_save (E : env) (t : trace) (hdr : trace_header) (cnt : Z)
    (w : world) : Z * world :=
  let '(rc, file_name) := channel_name t cnt in
  if rc <? 0 then (rc, w)
  else
    match fopen E file_name w with
    | (None, w1) => (- errno w1, w1)
    | (Some f, w1) =>
        let '(rc, w2) := fwrite E (region_bytes hdr) f w1 in
        let rc := if decide (rc = 1) then 0 else - EACCES in
        let '(closed, w3) := fclose E f w2 in
        (if decide (closed = 0) then rc else - errno w3, w3)
    end.

(** The loop of rte_trace_save over the regions from index [count] on;
    [rc] is the result so far. *)
Fixpoint trace_save_loop (E : env) (t : trace) (regions : list trace_header)
    (count : Z) (rc : Z) (w : world) : Z * world :=
  match regions with
  | [] => (rc, w)
  | header :: rest =>
      let '(rc, w') := trace_mem_save E t header count w in
      if decide (rc = 0) then trace_save_loop E t rest (to_uint32 (count + 1)) rc w'
      else (rc, w')
  end.

Definition rte_trace_save (E : env) (t : trace) (w : world) : Z * trace * world :=
  let rc := 0 in
  if decide (nb_trace_mem_list t = 0) then (rc, t, w)
  else
    let '(rc, w1) := trace_meta_save E t w in
    if decide (rc = 0)
    then
      let '(t1, w2) := rte_spinlock_lock t w1 in
      let '(rc, w3) :=
        trace_save_loop E t1
          (take (Z.to_nat (nb_trace_mem_list t)) (lcore_meta t)) 0 rc w2 in
      let '(t2, w4) := rte_spinlock_unlock t1 w3 in
      (rc, t2, w4)
    else (rc, t, w1).

End Persistence.

(** The timestamp of a session name as the format of
    trace_session_name_generate orders it: year, month, day, AM or PM,
    hour on the 12-hour clock, minute, second. *)
Definition session_stamp (r : tm) : cstring :=
  decimal (tm_year r + 1900) ++ lit "-" ++ pad2 (tm_mon r + 1) ++ lit "-" ++
  pad2 (tm_mday r) ++ lit "-" ++
  (if tm_hour r <? 12 then lit "AM" else lit "PM") ++ lit "-" ++
  pad2 ((tm_hour r + 11) mod 12 + 1) ++ lit "-" ++
  pad2 (tm_min r) ++ lit "-" ++ pad2 (tm_sec r).

(** The timestamp as the specification lays it out:
    DD-MM-YYYY-AM|PM-HH-MM-SS. *)
Definition spec_session_stamp (r : tm) : cstring :=
  pad2 (tm_mday r) ++ lit "-" ++ pad2 (tm_mon r + 1) ++ lit "-" ++
  decimal (tm_year r + 1900) ++ lit "-" ++
  (if tm_hour r <? 12 then lit "AM" else lit "PM") ++ lit "-" ++
  pad2 ((tm_hour r + 11) mod 12 + 1) ++ lit "-" ++
  pad2 (tm_min r) ++ lit "-" ++ pad2 (tm_sec r).


Section PersistenceSpec.

Variable STREAM_HEADER_SIZE : Z.


End PersistenceSpec.

(** ** Directory option and pattern replay *)

(** sprintf(p, ...), given the formatted text: the text and its NUL are
    stored in the block at [p].  [None] is undefined behaviour: [p] is
    no block of the process, or the text overruns the block. *)
Definition sprintf (p : loc) (text : cstring) (w : world) : option world :=
  match heap w !! p with
  | None => None
  | Some block =>
      if (length text + 1 <=? length block)%nat
      then Some (memcpy p (text ++ [NUL]) w)
      else None
  end.

(** eal_trace_dir_args_save; a NULL [optarg] is [None]. *)
Definition eal_trace_dir_args_save (E : env) (optarg : option cstring)
    (t : trace) (w : world) : option (Z * trace * world) :=
  let size := to_uint32 (Z.of_nat (length (dir t))) in
  match optarg with
  | None => Some (- EINVAL, t, trace_err (lit "no optarg is passed") w)
  | Some optarg =>
      if size <=? strlen optarg
      then Some (- ENAMETOOLONG, t, trace_err (lit "input string is too big") w)
      else
        match calloc E (Z.to_nat size) w with
        | (None, w1) =>
            Some (- ENOMEM, t, trace_err (lit "fail to allocate memory") w1)
        | (Some dir_path, w1) =>
            match sprintf dir_path (cstr optarg ++ lit "/") w1 with
            | None => None
            | Some w2 =>
                let '(rc, t1, w3) :=
                  trace_dir_update (default [] (heap w2 !! dir_path)) t w2 in
                Some (rc, t1, free dir_path w3)
            end
        end
  end.

(** strdup(s): a fresh block holding [s] and its NUL, or NULL. *)
Definition strdup (E : env) (s : cstring) (w : world) : option loc * world :=
  if calloc_ok_at E (ticks w)
  then
    let p := fresh (dom (heap w)) in
    (Some p, set_heap (<[p := cstr s ++ [NUL]]> (heap w)) (tick w))
  else (None, set_errno ENOMEM (tick w)).

Section Apply.

(** rte_trace_regexp (eal_common_trace.c), the entry point of the filter
    engine: the pattern, the enable flag, and the world it runs in. *)
Variable rte_trace_regexp : cstring -> bool -> world -> Z * world.

Definition trace_args_apply (E : env) (arg : cstring) (w : world) : Z * world :=
  match strdup E arg w with
  | (None, w1) => (-1, w1)
  | (Some str, w1) =>
      let '(rc, w2) := rte_trace_regexp (default [] (heap w1 !! str)) true w1 in
      if rc <? 0
      then
        (-1,
         free str
           (trace_err
              (lit "cannot enable trace for " ++ cstr (default [] (heap w2 !! str)))
              w2))
      else (0, free str w2)
  end.

End Apply.

(** ** Vocabulary of the further properties *)

(** The path buffer holds the path [s]: [s] fills the buffer up to the
    offset and is followed by its NUL. *)
Definition dir_holds (t : trace) (s : cstring) : Prop :=
  dir_wf t /\ dir_offset t = Z.of_nat (length s) /\ (NUL ∉ s) /\
  exists rest, dir t = s ++ (NUL :: rest).

(** [w'] differs from [w] in the files, the trail, errno and the call
    count at most. *)
Definition files_only (w w' : world) : Prop :=
  dirs w' = dirs w /\ heap w' = heap w /\ rte_errno w' = rte_errno w /\
  (ticks w <= ticks w')%nat.

(** The point at index [i] of a registry has a namesake at another index. *)
Definition has_namesake (N : nat) (tps : list trace_point) (i : nat) : Prop :=
  exists tp j tp',
    tps !! i = Some tp /\ tps !! j = Some tp' /\ i <> j /\
    strncmp (tp_name tp') (tp_name tp) N = 0.

(** ** Sample inputs *)

(** An environment in which every call succeeds: 23 April 2020, 15:07:09
    local time, the file prefix [rte]. *)
Definition sample_env : env :=
  Env (fun _ => 1000)
      (fun _ => Ok (Timespec 1587654429 5))
      (fun _ => Ok 1587654429)
      (fun _ => Ok (Tm 9 7 15 23 3 120))
      (fun _ => true)
      (Some (lit "/home/dpdk"))
      None
      (lit "rte")
      (fun _ _ => None)
      (fun _ _ => None)
      (fun _ _ => None)
      (fun _ _ => None)
      (fun _ => (0, lit "/* CTF 1.8 */")).

Definition sample_world : world := World 0 0 0 ∅ ∅ ∅ [].

(** A freshly initialised struct trace: nothing registered, an empty
    directory buffer of PATH_MAX bytes, 32 argument slots. *)
Definition sample_trace : trace :=
  Trace 0 (replicate 16 0) (replicate (Z.to_nat PATH_MAX) NUL) 0
        0 (replicate 32 None) 0 0 0 0 [] false.

(** The environment of [sample_env] with a counter that stands at 2^63. *)
Definition late_counter_env : env :=
  Env (fun _ => 2 ^ 63)
      (clock_gettime_at sample_env) (time_at sample_env) (localtime_of sample_env)
      (calloc_ok_at sample_env) (getenv_HOME sample_env) (getpwuid_dir sample_env)
      (hugefile_prefix sample_env) (mkdir_fault_at sample_env)
      (fopen_fault_at sample_env) (fwrite_short_at sample_env)
      (fclose_fault_at sample_env) (metadata_dump_at sample_env).

(** Three worker regions under the session directory /t/s, each with a
    56-byte stream header and a few bytes of trace memory. *)
Definition three_regions : trace :=
  Trace 3 (replicate 16 0)
        (store_at (replicate (Z.to_nat PATH_MAX) NUL) 0 (lit "/t/s")) 4
        0 (replicate 32 None) 0 0 0
        3 [ TraceHeader 2 (replicate 64 "a"%char);
            TraceHeader 0 (replicate 64 "b"%char);
            TraceHeader 8 (replicate 64 "c"%char) ]
        false.

(** The environment of [sample_env] with a disk that refuses to create
    the file of region 1 (ENOSPC). *)
Definition full_disk_env : env :=
  Env (tsc_at sample_env)
      (clock_gettime_at sample_env) (time_at sample_env) (localtime_of sample_env)
      (calloc_ok_at sample_env) (getenv_HOME sample_env) (getpwuid_dir sample_env)
      (hugefile_prefix sample_env) (mkdir_fault_at sample_env)
      (fun _ p => if decide (p = lit "/t/s/channel0_1") then Some 28%positive else None)
      (fwrite_short_at sample_env)
      (fclose_fault_at sample_env) (metadata_dump_at sample_env).

(** The environment of [sample_env] with a file prefix of 13 characters. *)
Definition long_prefix_env : env :=
  Env (tsc_at sample_env)
      (clock_gettime_at sample_env) (time_at sample_env) (localtime_of sample_env)
      (calloc_ok_at sample_env) (getenv_HOME sample_env) (getpwuid_dir sample_env)
      (lit "dpdk_testapp1") (mkdir_fault_at sample_env)
      (fopen_fault_at sample_env) (fwrite_short_at sample_env)
      (fclose_fault_at sample_env) (metadata_dump_at sample_env).




(** The environment of [sample_env] in the last second that fits 32
    bits, 7 February 2106, 06:28:15 UTC. *)
Definition year_2106_env : env :=
  Env (tsc_at sample_env)
      (clock_gettime_at sample_env) (fun _ => Ok 4294967295)
      (fun _ => Ok (Tm 15 28 6 7 1 206))
      (calloc_ok_at sample_env) (getenv_HOME sample_env) (getpwuid_dir sample_env)
      (hugefile_prefix sample_env) (mkdir_fault_at sample_env)
      (fopen_fault_at sample_env) (fwrite_short_at sample_env)
      (fclose_fault_at sample_env) (metadata_dump_at sample_env).

(** ** Proof automation *)

(** Reading the fields of a world that was built by the setters. *)
Ltac world_cbn :=
  cbn [fst snd errno rte_errno ticks dirs files heap trail set_errno
       set_rte_errno tick set_dirs set_files set_heap emit file_append].

(** * Properties *)

(** ** Arithmetic and string helpers *)

Lemma wrap_range (bits z : Z) : 0 <= bits -> 0 <= wrap bits z < 2 ^ bits.
Proof. intros Hb. unfold wrap. apply Z.mod_pos_bound. lia. Qed.

Lemma wrap_small (bits z : Z) : 0 <= z < 2 ^ bits -> wrap bits z = z.
Proof. intros Hz. unfold wrap. apply Z.mod_small. exact Hz. Qed.

Lemma code_inj (c1 c2 : ascii) : code c1 = code c2 -> c1 = c2.
Proof.
  unfold code. intros H. apply Nat2Z.inj in H.
  rewrite <- (ascii_nat_embedding c1), <- (ascii_nat_embedding c2).
  now rewrite H.
Qed.

Lemma strncmp_refl (n : nat) : forall s, strncmp s s n = 0.
Proof.
  induction n as [|n IH]; intros s; simpl; [reflexivity|].
  destruct (decide (hd NUL s = hd NUL s)) as [_|Hne]; [|congruence].
  destruct (decide (hd NUL s = NUL)); [reflexivity|apply IH].
Qed.

Lemma strncmp_sym (n : nat) :
  forall s1 s2, strncmp s1 s2 n = 0 -> strncmp s2 s1 n = 0.
Proof.
  induction n as [|n IH]; intros s1 s2; simpl; [reflexivity|].
  destruct (decide (hd NUL s1 = hd NUL s2)) as [Heq|Hne].
  - rewrite Heq. destruct (decide (hd NUL s2 = hd NUL s2)); [|congruence].
    destruct (decide (hd NUL s2 = NUL)); [reflexivity|apply IH].
  - intros H. exfalso. apply Hne, code_inj. lia.
Qed.

(** ** Session identity *)

Section UuidFacts.

Variable mask : Z.
Variable uuid_init : Z -> Z -> Z -> Z -> Z -> list Z.

Lemma field_size_range tp : 0 <= field_size mask tp < 2 ^ 16.
Proof. unfold field_size, to_uint16. apply wrap_range. lia. Qed.

Lemma total_size_range tps :
  0 <= total_size mask tps <= (2 ^ 16 - 1) * Z.of_nat (length tps).
Proof.
  induction tps as [|tp rest IH]; simpl total_size; simpl length; [lia|].
  pose proof (field_size_range tp). lia.
Qed.

Lemma sz_total_loop_sum tps :
  forall acc, 0 <= acc < 2 ^ 64 ->
    sz_total_loop mask tps acc = (acc + total_size mask tps) mod 2 ^ 64.
Proof.
  induction tps as [|tp rest IH]; intros acc Hacc; simpl.
  - rewrite Z.add_0_r, Z.mod_small; [reflexivity|exact Hacc].
  - rewrite IH by (apply wrap_range; lia).
    unfold to_uint64, wrap. rewrite Zplus_mod_idemp_l. f_equal. lia.
Qed.

Lemma sz_total_loop_mod tps :
  sz_total_loop mask tps 0 = total_size mask tps mod 2 ^ 64.
Proof. rewrite sz_total_loop_sum by lia. reflexivity. Qed.

(** C3: the UUID is a function of the summed size fields and the point
    count alone.  [sz_total] is the sum of the masked size fields of all
    registered points (kept in 64 bits, and exact for every registry of
    fewer than 2^48 points); the stored UUID is RTE_UUID_INIT of that
    sum, the point count and the three fixed constants, so registries
    with the same sum and count get the same bytes; three points of 8,
    16 and 32 bits give the sum 56 and the UUID packed from (56, 3). *)
Theorem trace_uuid_generate_deterministic :
  (forall tps t,
     sz_total_loop mask tps 0 = total_size mask tps mod 2 ^ 64 /\
     (Z.of_nat (length tps) < 2 ^ 48 -> sz_total_loop mask tps 0 = total_size mask tps) /\
     uuid (trace_uuid_generate mask uuid_init tps t) =
       uuid_init (sz_total_loop mask tps 0) (nb_trace_points t)
         0x4370 0x8f50 0x222ddd514176) /\
  (forall tps1 tps2 t1 t2,
     total_size mask tps1 = total_size mask tps2 ->
     nb_trace_points t1 = nb_trace_points t2 ->
     uuid (trace_uuid_generate mask uuid_init tps1 t1) =
       uuid (trace_uuid_generate mask uuid_init tps2 t2)) /\
  (forall p1 p2 p3 t,
     field_size mask p1 = 8 -> field_size mask p2 = 16 ->
     field_size mask p3 = 32 -> nb_trace_points t = 3 ->
     sz_total_loop mask [p1; p2; p3] 0 = 56 /\
     uuid (trace_uuid_generate mask uuid_init [p1; p2; p3] t) =
       uuid_init 56 3 0x4370 0x8f50 0x222ddd514176).
Proof.
  split; [|split].
  - intros tps t. split; [apply sz_total_loop_mod|]. split; [|reflexivity].
    intros Hlen. rewrite sz_total_loop_mod. apply Z.mod_small.
    pose proof (total_size_range tps). lia.
  - intros tps1 tps2 t1 t2 Hsz Hnb. unfold trace_uuid_generate. cbv zeta.
    unfold set_uuid. cbn [uuid].
    rewrite !sz_total_loop_mod, Hsz, Hnb. reflexivity.
  - intros p1 p2 p3 t H1 H2 H3 Hnb.
    assert (Hsum : sz_total_loop mask [p1; p2; p3] 0 = 56).
    { rewrite sz_total_loop_mod. simpl. rewrite H1, H2, H3. reflexivity. }
    split; [exact Hsum|]. unfold trace_uuid_generate. cbv zeta.
    rewrite Hsum. unfold set_uuid. cbn [uuid]. rewrite Hnb. reflexivity.
Qed.

End UuidFacts.

Lemma trace_uuid_generate_deterministic_witness :
  sz_total_loop 0xffff
    [ TracePoint (lit "lib.eal.generic.u8") 0x10008;
      TracePoint (lit "lib.eal.generic.u16") 0x20010;
      TracePoint (lit "lib.eal.generic.u32") 0x30020 ] 0 = 56 /\
  uuid (trace_uuid_generate 0xffff rte_uuid_init_layout
          [ TracePoint (lit "lib.eal.generic.u8") 0x10008;
            TracePoint (lit "lib.eal.generic.u16") 0x20010;
            TracePoint (lit "lib.eal.generic.u32") 0x30020 ] three_regions) =
    [ 0; 0; 0; 56; 0; 3; 0x43; 0x70; 0x8f; 0x50; 0x22; 0x2d; 0xdd; 0x51; 0x41; 0x76 ].
Proof.
  destruct (trace_uuid_generate_deterministic 0xffff rte_uuid_init_layout)
    as (_ & _ & Hexample).
  destruct (Hexample (TracePoint (lit "lib.eal.generic.u8") 0x10008)
              (TracePoint (lit "lib.eal.generic.u16") 0x20010)
              (TracePoint (lit "lib.eal.generic.u32") 0x30020) three_regions)
    as (Hsum & Huuid); [reflexivity|reflexivity|reflexivity|reflexivity|].
  split; [exact Hsum|]. rewrite Huuid. reflexivity.
Defined.

(** ** Trace point validator *)

Section ValidatorFacts.

Variable N : nat.

(** With one match already counted the loop answers whether another
    point matches. *)
Lemma trace_entry_compare_loop_one tps name :
  trace_entry_compare_loop N tps name 1 = true <->
  exists k tp, tps !! k = Some tp /\ strncmp (tp_name tp) name N = 0.
Proof.
  induction tps as [|tp rest IH]; simpl.
  - split; [discriminate|]. intros (k & tp & Hk & _). destruct k; discriminate.
  - destruct (decide (strncmp (tp_name tp) name N = 0)) as [Hm|Hm]; simpl.
    + split; [|reflexivity]. intros _. exists 0%nat, tp. auto.
    + rewrite IH. split.
      * intros (k & tp' & Hk & Hp). exists (S k), tp'. auto.
      * intros (k & tp' & Hk & Hp). destruct k as [|k]; simpl in Hk.
        -- congruence.
        -- exists k, tp'. auto.
Qed.

(** From a count of zero the loop answers whether two points match. *)
Lemma trace_entry_compare_loop_zero tps name :
  trace_entry_compare_loop N tps name 0 = true <->
  exists i j tpi tpj,
    (i < j)%nat /\ tps !! i = Some tpi /\ tps !! j = Some tpj /\
    strncmp (tp_name tpi) name N = 0 /\ strncmp (tp_name tpj) name N = 0.
Proof.
  induction tps as [|tp rest IH]; simpl.
  - split; [discriminate|]. intros (i & j & x & y & _ & Hi & _). destruct i; discriminate.
  - destruct (decide (strncmp (tp_name tp) name N = 0)) as [Hm|Hm]; simpl.
    + rewrite trace_entry_compare_loop_one. split.
      * intros (k & tp' & Hk & Hp). exists 0%nat, (S k), tp, tp'.
        repeat split; auto. lia.
      * intros (i & j & x & y & Hij & Hi & Hj & Hx & Hy).
        destruct j as [|j]; [lia|]. exists j, y. auto.
    + rewrite IH. split.
      * intros (i & j & x & y & Hij & Hi & Hj & Hx & Hy).
        exists (S i), (S j), x, y. repeat split; auto. lia.
      * intros (i & j & x & y & Hij & Hi & Hj & Hx & Hy).
        destruct i as [|i]; simpl in Hi; [congruence|].
        destruct j as [|j]; [lia|]. simpl in Hj.
        exists i, j, x, y. repeat split; auto. lia.
Qed.

Lemma trace_has_duplicate_entry_loop_false tps pending w :
  (forall tp, tp ∈ pending -> trace_entry_compare_loop N tps (tp_name tp) 0 = false) ->
  trace_has_duplicate_entry_loop N tps pending w = (false, w).
Proof.
  induction pending as [|tp rest IH]; intros Hall; simpl; [reflexivity|].
  unfold trace_entry_compare. rewrite (Hall tp) by (left).
  apply IH. intros tp' Hin. apply Hall. now right.
Qed.

Lemma trace_has_duplicate_entry_loop_true tps pending w tp :
  tp ∈ pending ->
  trace_entry_compare_loop N tps (tp_name tp) 0 = true ->
  exists tp', tp' ∈ pending /\
    trace_entry_compare_loop N tps (tp_name tp') 0 = true /\
    trace_has_duplicate_entry_loop N tps pending w =
      (true, duplicate_reported (tp_name tp') w).
Proof.
  induction pending as [|hd rest IH]; intros Hin Hdup.
  - inversion Hin.
  - simpl. unfold trace_entry_compare.
    destruct (trace_entry_compare_loop N tps (tp_name hd) 0) eqn:Hhd.
    + exists hd. split; [left|]. split; [exact Hhd|reflexivity].
    + apply elem_of_cons in Hin as [->|Hin]; [congruence|].
      destruct (IH Hin Hdup) as (tp' & Hin' & Hdup' & Hres).
      exists tp'. split; [now right|]. split; [exact Hdup'|exact Hres].
Qed.

Lemma trace_has_duplicate_entry_loop_inv tps pending w :
  fst (trace_has_duplicate_entry_loop N tps pending w) = true ->
  exists tp, tp ∈ pending /\ trace_entry_compare_loop N tps (tp_name tp) 0 = true.
Proof.
  induction pending as [|hd rest IH]; simpl; [discriminate|].
  unfold trace_entry_compare.
  destruct (trace_entry_compare_loop N tps (tp_name hd) 0) eqn:Hhd.
  - intros _. exists hd. split; [left|exact Hhd].
  - intros Hrest. destruct (IH Hrest) as (tp & Hin & Hdup).
    exists tp. split; [now right|exact Hdup].
Qed.

Lemma shares_name_compare tps :
  shares_name N tps <->
  exists tp, tp ∈ tps /\ trace_entry_compare_loop N tps (tp_name tp) 0 = true.
Proof.
  split.
  - intros (i & j & tpi & tpj & Hij & Hi & Hj & Hcmp).
    exists tpj. split; [eapply list_elem_of_lookup_2; eauto|].
    apply trace_entry_compare_loop_zero.
    destruct (Nat.lt_total i j) as [Hlt|[Heq|Hgt]]; [|congruence|].
    + exists i, j, tpi, tpj. repeat split; auto. apply strncmp_refl.
    + exists j, i, tpj, tpi. repeat split; auto. apply strncmp_refl.
  - intros (tp & Hin & Hdup).
    apply trace_entry_compare_loop_zero in Hdup
      as (i & j & x & y & Hij & Hi & Hj & Hx & Hy).
    apply list_elem_of_lookup_1 in Hin as [k Hk].
    destruct (decide (k = i)) as [->|Hki].
    + exists j, i, y, tp. repeat split; auto. lia.
    + exists i, k, x, tp. repeat split; auto.
Qed.

(** C4: the validator finds a duplicate exactly when two registered
    points share a name under strncmp over the name size.  A registry of
    pairwise distinct names gives false and leaves the world as it was;
    a registry with a shared name gives true, sets rte_errno to EEXIST
    and logs a name that two points carry. *)
Theorem trace_has_duplicate_entry_correct (tps : list trace_point) (w : world) :
  (shares_name N tps <-> fst (trace_has_duplicate_entry N tps w) = true) /\
  (~ shares_name N tps -> trace_has_duplicate_entry N tps w = (false, w)) /\
  (shares_name N tps ->
   exists tp i j tpi tpj,
     tp ∈ tps /\ (i < j)%nat /\ tps !! i = Some tpi /\ tps !! j = Some tpj /\
     strncmp (tp_name tpi) (tp_name tp) N = 0 /\
     strncmp (tp_name tpj) (tp_name tp) N = 0 /\
     trace_has_duplicate_entry N tps w =
       (true, duplicate_reported (tp_name tp) w) /\
     rte_errno (snd (trace_has_duplicate_entry N tps w)) = EEXIST).
Proof.
  assert (Hno : ~ shares_name N tps -> trace_has_duplicate_entry N tps w = (false, w)).
  { intros Hn. apply trace_has_duplicate_entry_loop_false. intros tp Hin.
    destruct (trace_entry_compare_loop N tps (tp_name tp) 0) eqn:Hc; [|reflexivity].
    exfalso. apply Hn, shares_name_compare. eauto. }
  assert (Hyes : shares_name N tps ->
    exists tp, tp ∈ tps /\ trace_entry_compare_loop N tps (tp_name tp) 0 = true /\
      trace_has_duplicate_entry N tps w = (true, duplicate_reported (tp_name tp) w)).
  { intros Hs. apply shares_name_compare in Hs as (tp & Hin & Hdup).
    exact (trace_has_duplicate_entry_loop_true tps tps w tp Hin Hdup). }
  split; [|split].
  - split.
    + intros Hs. destruct (Hyes Hs) as (tp & _ & _ & ->). reflexivity.
    + intros Htrue. apply shares_name_compare.
      exact (trace_has_duplicate_entry_loop_inv tps tps w Htrue).
  - exact Hno.
  - intros Hs. destruct (Hyes Hs) as (tp & Hin & Hdup & Hres).
    apply trace_entry_compare_loop_zero in Hdup
      as (i & j & x & y & Hij & Hi & Hj & Hx & Hy).
    exists tp, i, j, x, y. rewrite Hres. repeat split; auto.
Qed.

End ValidatorFacts.

Lemma trace_has_duplicate_entry_correct_witness :
  shares_name 64
    [ TracePoint (lit "lib.eal.a") 8; TracePoint (lit "lib.eal.b") 16;
      TracePoint (lit "lib.eal.a") 32 ] /\
  fst (trace_has_duplicate_entry 64
         [ TracePoint (lit "lib.eal.a") 8; TracePoint (lit "lib.eal.b") 16;
           TracePoint (lit "lib.eal.a") 32 ] sample_world) = true /\
  trace_has_duplicate_entry 64
    [ TracePoint (lit "lib.eal.a") 8; TracePoint (lit "lib.eal.b") 16;
      TracePoint (lit "lib.eal.A") 32 ] sample_world = (false, sample_world).
Proof.
  assert (Hshare : shares_name 64
    [ TracePoint (lit "lib.eal.a") 8; TracePoint (lit "lib.eal.b") 16;
      TracePoint (lit "lib.eal.a") 32 ]).
  { exists 0%nat, 2%nat, (TracePoint (lit "lib.eal.a") 8),
      (TracePoint (lit "lib.eal.a") 32). repeat split. lia. }
  split; [exact Hshare|]. split.
  - apply (trace_has_duplicate_entry_correct 64
      [ TracePoint (lit "lib.eal.a") 8; TracePoint (lit "lib.eal.b") 16;
        TracePoint (lit "lib.eal.a") 32 ] sample_world). exact Hshare.
  - apply (trace_has_duplicate_entry_correct 64
      [ TracePoint (lit "lib.eal.a") 8; TracePoint (lit "lib.eal.b") 16;
        TracePoint (lit "lib.eal.A") 32 ] sample_world).
    intros (i & j & x & y & Hij & Hi & Hj & Hcmp).
    destruct i as [|[|[|i]]]; destruct j as [|[|[|j]]];
      simpl in Hi, Hj; try discriminate; try lia;
      injection Hi as <-; injection Hj as <-; vm_compute in Hcmp; discriminate.
Defined.

(** ** Argument store *)

Lemma set_args_same (t : trace) : set_args (nb_args t) (args t) t = t.
Proof. destruct t. reflexivity. Qed.

Lemma set_args_twice n a b (t : trace) : set_args n a (set_args n b t) = set_args n a t.
Proof. destruct t. reflexivity. Qed.

Lemma free_heap_other (p q : loc) (w : world) :
  p <> q -> heap (free p w) !! q = heap w !! q.
Proof. intros Hne. unfold free. simpl. now apply lookup_delete_ne. Qed.

Lemma free_heap_same (p : loc) (w : world) : heap (free p w) !! p = None.
Proof. unfold free. simpl. apply lookup_delete_eq. Qed.

(** C9: once the count has reached TRACE_MAX_ARGS, saving a pattern
    returns 0 and stores nothing: struct trace (the count and every
    entry) and the heap are as before, and the only effect is the line
    on the error log. *)
Theorem eal_trace_args_save_full (TRACE_MAX_ARGS : Z) (E : env)
    (optarg : cstring) (t : trace) (w : world) :
  TRACE_MAX_ARGS <= nb_args t ->
  exists w',
    eal_trace_args_save TRACE_MAX_ARGS E optarg t w = (0, t, w') /\
    heap w' = heap w /\ ticks w' = ticks w /\
    trail w' =
      trail w ++ [EvErr (lit "ignoring trace " ++ cstr optarg ++ lit " as limit exceeds")].
Proof.
  intros Hfull. unfold eal_trace_args_save.
  destruct (TRACE_MAX_ARGS <=? nb_args t) eqn:Hle; [|lia].
  eexists. split; [reflexivity|]. repeat split.
Qed.

Lemma args_free_loop_spec (todo : nat) :
  forall i a w, owned_from i todo a w ->
  exists a' w',
    args_free_loop todo i a w = Some (a', w') /\
    length a' = length a /\
    (forall k, (i <= k < i + todo)%nat -> a' !! k = Some None) /\
    (forall k, ~ (i <= k < i + todo)%nat -> a' !! k = a !! k) /\
    (forall k p, (i <= k < i + todo)%nat -> a !! k = Some (Some p) ->
       heap w' !! p = None) /\
    (forall q, (forall k, (i <= k < i + todo)%nat -> a !! k <> Some (Some q)) ->
       heap w' !! q = heap w !! q) /\
    set_heap (heap w) w' = w.
Proof.
  induction todo as [|todo IH]; intros i a w (Hlen & Hown & Hdist).
  - exists a, w. simpl. split; [reflexivity|]. split; [reflexivity|].
    split; [intros; lia|]. split; [reflexivity|]. split; [intros; lia|].
    split; [reflexivity|]. destruct w; reflexivity.
  - simpl. destruct (a !! i) as [[p|]|] eqn:Hai.
    + destruct (Hown i p ltac:(lia) Hai) as [blk Hblk]. rewrite Hblk.
      assert (Hnext : owned_from (S i) todo (<[i:=None]> a) (free p w)).
      { split; [rewrite length_insert; lia|]. split.
        - intros k q Hk Hq. rewrite list_lookup_insert_ne in Hq by lia.
          rewrite free_heap_other; [apply (Hown k q); [lia|exact Hq]|].
          intros ->. specialize (Hdist i k q ltac:(lia) ltac:(lia) Hai Hq). lia.
        - intros k l q Hk Hl Hq Hq'.
          rewrite list_lookup_insert_ne in Hq by lia.
          rewrite list_lookup_insert_ne in Hq' by lia.
          apply (Hdist k l q); [lia|lia|exact Hq|exact Hq']. }
      destruct (IH (S i) _ _ Hnext)
        as (a' & w' & Hrun & Hlen' & Hnull & Hrest & Hfreed & Hkept & Hother).
      exists a', w'. split; [exact Hrun|].
      split; [rewrite Hlen', length_insert; reflexivity|].
      split; [|split; [|split; [|split]]].
      * intros k Hk. destruct (decide (k = i)) as [->|Hne].
        -- rewrite Hrest by lia. apply list_lookup_insert_eq. lia.
        -- apply Hnull. lia.
      * intros k Hk. rewrite Hrest by lia. apply list_lookup_insert_ne. lia.
      * intros k q Hk Hq. destruct (decide (k = i)) as [->|Hne].
        -- assert (q = p) by congruence. subst q.
           rewrite Hkept; [apply free_heap_same|].
           intros l Hl Hl'. rewrite list_lookup_insert_ne in Hl' by lia.
           specialize (Hdist i l p ltac:(lia) ltac:(lia) Hai Hl'). lia.
        -- apply (Hfreed k q); [lia|].
           rewrite list_lookup_insert_ne by lia. exact Hq.
      * intros q Hq. rewrite Hkept.
        -- apply free_heap_other. intros ->. apply (Hq i); [lia|exact Hai].
        -- intros k Hk Hk'. rewrite list_lookup_insert_ne in Hk' by lia.
           apply (Hq k); [lia|exact Hk'].
      * destruct w, w'. unfold set_heap, free in *. simpl in *.
        inversion Hother; subst; reflexivity.
    + assert (Hnext : owned_from (S i) todo a w).
      { split; [lia|]. split.
        - intros k q Hk Hq. apply (Hown k q); [lia|exact Hq].
        - intros k l q Hk Hl. apply Hdist; lia. }
      destruct (IH (S i) _ _ Hnext)
        as (a' & w' & Hrun & Hlen' & Hnull & Hrest & Hfreed & Hkept & Hother).
      exists a', w'. split; [exact Hrun|]. split; [exact Hlen'|].
      split; [|split; [|split; [|split]]].
      * intros k Hk. destruct (decide (k = i)) as [->|Hne].
        -- rewrite Hrest by lia. exact Hai.
        -- apply Hnull. lia.
      * intros k Hk. apply Hrest. lia.
      * intros k q Hk Hq. destruct (decide (k = i)) as [->|Hne]; [congruence|].
        apply (Hfreed k q); [lia|exact Hq].
      * intros q Hq. apply Hkept. intros k Hk. apply Hq. lia.
      * exact Hother.
    + apply lookup_ge_None in Hai. lia.
Qed.

(** Over entries that are all NULL the loop changes nothing. *)
Lemma args_free_loop_null (todo : nat) :
  forall i (a : list (option loc)) w,
    (forall k, (i <= k < i + todo)%nat -> a !! k = Some None) ->
    args_free_loop todo i a w = Some (a, w).
Proof.
  induction todo as [|todo IH]; intros i a w Hnull; simpl; [reflexivity|].
  rewrite (Hnull i) by lia. apply IH. intros k Hk. apply Hnull. lia.
Qed.

Lemma eal_trace_args_save_full_witness :
  32 <= nb_args (set_args 32 (replicate 32 (Some 1%positive)) sample_trace) /\
  exists w',
    eal_trace_args_save 32 sample_env (lit "lib.eal.*")
      (set_args 32 (replicate 32 (Some 1%positive)) sample_trace) sample_world =
      (0, set_args 32 (replicate 32 (Some 1%positive)) sample_trace, w') /\
    heap w' = heap sample_world /\ ticks w' = ticks sample_world /\
    trail w' =
      trail sample_world ++
      [EvErr (lit "ignoring trace " ++ cstr (lit "lib.eal.*") ++ lit " as limit exceeds")].
Proof.
  split; [simpl; lia|].
  apply (eal_trace_args_save_full 32 sample_env (lit "lib.eal.*")
           (set_args 32 (replicate 32 (Some 1%positive)) sample_trace) sample_world).
  simpl. lia.
Defined.

(** C10 as the code has it: eal_trace_args_free frees every block
    stored below the count and sets its slot to NULL; the count itself
    and the slots from the count on are left as they were, and no other
    heap block is touched.  Calling it again changes nothing, and on an
    empty store it changes nothing at all. *)
Theorem eal_trace_args_free_idempotent (t : trace) (w : world) :
  args_owned t w ->
  exists t' w',
    eal_trace_args_free t w = Some (t', w') /\
    nb_args t' = nb_args t /\
    length (args t') = length (args t) /\
    (forall k, (k < Z.to_nat (nb_args t))%nat -> args t' !! k = Some None) /\
    (forall k, (Z.to_nat (nb_args t) <= k)%nat -> args t' !! k = args t !! k) /\
    (forall k p, (k < Z.to_nat (nb_args t))%nat ->
       args t !! k = Some (Some p) -> heap w' !! p = None) /\
    (forall q,
       (forall k, (k < Z.to_nat (nb_args t))%nat -> args t !! k <> Some (Some q)) ->
       heap w' !! q = heap w !! q) /\
    eal_trace_args_free t' w' = Some (t', w') /\
    (nb_args t = 0 -> t' = t /\ w' = w).
Proof.
  intros Hown. unfold args_owned in Hown.
  destruct (args_free_loop_spec _ _ _ _ Hown)
    as (a' & w' & Hrun & Hlen & Hnull & Hrest & Hfreed & Hkept & Hother).
  exists (set_args (nb_args t) a' t), w'.
  unfold eal_trace_args_free. rewrite Hrun.
  split; [reflexivity|]. split; [reflexivity|]. split; [exact Hlen|].
  split; [intros k Hk; apply Hnull; lia|].
  split; [intros k Hk; apply Hrest; lia|].
  split; [intros k p Hk; apply Hfreed; lia|].
  split; [intros q Hq; apply Hkept; intros k Hk; apply Hq; lia|].
  split.
  - cbn [nb_args args set_args].
    rewrite (args_free_loop_null _ 0 a' w') by (intros k Hk; apply Hnull; lia).
    rewrite set_args_twice. reflexivity.
  - intros Hzero. rewrite Hzero in Hrun. simpl in Hrun.
    injection Hrun as <- <-. split; [apply set_args_same|reflexivity].
Qed.

Lemma eal_trace_args_free_idempotent_witness :
  exists t' w',
    eal_trace_args_free
      (set_args 2 (Some 1%positive :: Some 2%positive :: replicate 30 None) sample_trace)
      (set_heap {[ 1%positive := lit "lib.eal.*"; 2%positive := lit "lib.mempool.*" ]}
         sample_world) = Some (t', w') /\
    nb_args t' = 2 /\
    eal_trace_args_free t' w' = Some (t', w').
Proof.
  destruct (eal_trace_args_free_idempotent
    (set_args 2 (Some 1%positive :: Some 2%positive :: replicate 30 None) sample_trace)
    (set_heap {[ 1%positive := lit "lib.eal.*"; 2%positive := lit "lib.mempool.*" ]}
       sample_world))
    as (t' & w' & Hrun & Hnb & _ & _ & _ & _ & _ & Hagain & _).
  - split; [simpl; lia|]. split.
    + intros k p Hk Hp. simpl in Hk.
      destruct k as [|[|k]]; [| |lia]; simpl in Hp; inversion Hp; subst p;
        simpl; [exists (lit "lib.eal.*")|exists (lit "lib.mempool.*")]; reflexivity.
    + intros k l p Hk Hl Hp Hq. simpl in Hk, Hl.
      destruct k as [|[|k]]; [| |lia]; destruct l as [|[|l]]; try lia;
        simpl in Hp, Hq; congruence.
  - exists t', w'. split; [exact Hrun|]. split; [exact Hnb|exact Hagain].
Defined.

(** C10 as stated fails: after eal_trace_args_free on a store holding
    one pattern the count is still 1. *)
Lemma eal_trace_args_free_keeps_count :
  match eal_trace_args_free
          (set_args 1 (Some 1%positive :: replicate 31 None) sample_trace)
          (set_heap {[ 1%positive := lit "lib.eal.*" ]} sample_world) with
  | Some (t', w') =>
      args t' !! 0%nat = Some None /\ heap w' !! 1%positive = None /\
      nb_args t' = 1 /\ nb_args t' <> 0
  | None => False
  end.
Proof. vm_compute. repeat split. discriminate. Qed.

(** The store invariant is kept by eal_trace_args_save: every pattern
    gets a block of its own. *)
Lemma eal_trace_args_save_owned (TRACE_MAX_ARGS : Z) (E : env)
    (optarg : cstring) (t : trace) (w : world) :
  0 <= nb_args t -> TRACE_MAX_ARGS <= 255 ->
  Z.of_nat (length (args t)) = TRACE_MAX_ARGS ->
  args_owned t w ->
  args_owned (snd (fst (eal_trace_args_save TRACE_MAX_ARGS E optarg t w)))
             (snd (eal_trace_args_save TRACE_MAX_ARGS E optarg t w)).
Proof.
  intros Hnb Hmax Hlen Hown. unfold eal_trace_args_save.
  destruct (TRACE_MAX_ARGS <=? nb_args t) eqn:Hfull; [exact Hown|].
  apply Z.leb_gt in Hfull. unfold calloc.
  destruct (calloc_ok_at E (ticks w)); [|exact Hown].
  cbn [fst snd]. set (p := fresh (dom (heap w))).
  assert (Hfresh : heap w !! p = None).
  { apply not_elem_of_dom. apply is_fresh. }
  destruct Hown as (Hfit & Halloc & Hdist). unfold args_owned.
  cbn [nb_args args set_args]. unfold to_uint8. rewrite wrap_small by lia.
  replace (Z.to_nat (nb_args t + 1)) with (S (Z.to_nat (nb_args t))) by lia.
  set (n := Z.to_nat (nb_args t)) in *.
  assert (Hold : forall k q, (k < n)%nat -> args t !! k = Some (Some q) -> q <> p).
  { intros k q Hk Hq ->. destruct (Halloc k p ltac:(lia) Hq) as [blk Hblk]. congruence. }
  split; [rewrite length_insert; lia|]. split.
  - intros k q Hk Hq. unfold memcpy. cbn [heap set_heap tick].
    destruct (decide (k = n)) as [->|Hne].
    + rewrite list_lookup_insert_eq in Hq by lia. injection Hq as <-.
      rewrite lookup_alter_eq, lookup_insert_eq. eexists. reflexivity.
    + rewrite list_lookup_insert_ne in Hq by lia.
      rewrite lookup_alter_ne, lookup_insert_ne by (apply not_eq_sym, (Hold k); [lia|exact Hq]).
      apply (Halloc k q); [lia|exact Hq].
  - intros k l q Hk Hl Hq Hq'.
    destruct (decide (k = n)) as [->|Hkn]; destruct (decide (l = n)) as [->|Hln];
      [reflexivity| | |].
    + rewrite list_lookup_insert_eq in Hq by lia. injection Hq as <-.
      rewrite list_lookup_insert_ne in Hq' by lia.
      exfalso. apply (Hold l p); [lia|exact Hq'|reflexivity].
    + rewrite list_lookup_insert_eq in Hq' by lia. injection Hq' as <-.
      rewrite list_lookup_insert_ne in Hq by lia.
      exfalso. apply (Hold k p); [lia|exact Hq|reflexivity].
    + rewrite list_lookup_insert_ne in Hq by lia.
      rewrite list_lookup_insert_ne in Hq' by lia.
      apply (Hdist k l q); [lia|lia|exact Hq|exact Hq'].
Qed.

(** ** Clock correlator *)

Lemma shiftr1_half (z : Z) : Z.shiftr z 1 = z / 2.
Proof. rewrite Z.shiftr_div_pow2 by lia. reflexivity. Qed.

(** What trace_epoch_time_save stores: the two counter reads bracket the
    wall clock read, and [uptime_ticks] is half of their sum taken in 64
    bits; a failed wall clock read gives -1 and leaves struct trace as it
    was. *)
Lemma trace_epoch_time_save_spec (E : env) (t : trace) (w : world) :
  let start := to_uint64 (tsc_at E (ticks w)) in
  let end_ := to_uint64 (tsc_at E (S (S (ticks w)))) in
  match clock_gettime_at E (S (ticks w)) with
  | Ok ts =>
      exists t' w',
        trace_epoch_time_save E t w = (0, t', w') /\
        epoch_sec t' = to_uint64 (tv_sec ts) /\
        epoch_nsec t' = to_uint64 (tv_nsec ts) /\
        uptime_ticks t' = ((start + end_) mod 2 ^ 64) / 2 /\
        (start + end_ < 2 ^ 64 -> uptime_ticks t' = (start + end_) / 2) /\
        ticks w' = S (S (S (ticks w)))
  | Err e =>
      exists w', trace_epoch_time_save E t w = (-1, t, w') /\ errno w' = Z.pos e
  end.
Proof.
  intros start end_. unfold trace_epoch_time_save, rte_get_tsc_cycles, clock_gettime.
  cbn [ticks tick]. destruct (clock_gettime_at E (S (ticks w))) as [ts|e].
  - simpl. eexists _, _. split; [reflexivity|]. cbn [epoch_sec epoch_nsec uptime_ticks set_epoch].
    split; [reflexivity|]. split; [reflexivity|].
    split; [apply shiftr1_half|]. split; [|reflexivity].
    intros Hsmall. rewrite shiftr1_half. unfold to_uint64 at 1, wrap.
    rewrite Z.mod_small; [reflexivity|].
    pose proof (wrap_range 64 (tsc_at E (ticks w)) ltac:(lia)).
    pose proof (wrap_range 64 (tsc_at E (S (S (ticks w)))) ltac:(lia)).
    fold (to_uint64 (tsc_at E (ticks w))) in *.
    fold (to_uint64 (tsc_at E (S (S (ticks w))))) in *. subst start end_. lia.
  - simpl. eexists. split; reflexivity.
Qed.

(** C8 at two counter reads of 2^63: their mean is 2^63, the value
    stored is 0. *)
Theorem trace_epoch_time_save_wraps :
  (2 ^ 63 + 2 ^ 63) / 2 = 2 ^ 63 /\
  exists t' w',
    trace_epoch_time_save late_counter_env sample_trace sample_world = (0, t', w') /\
    epoch_sec t' = 1587654429 /\ epoch_nsec t' = 5 /\
    uptime_ticks t' = 0.
Proof.
  split; [reflexivity|]. eexists _, _. split; [reflexivity|].
  repeat split.
Qed.

(** ** Buffers and C strings *)

Lemma to_int_small (z : Z) : - 2 ^ 31 <= z < 2 ^ 31 -> to_int z = z.
Proof.
  intros Hz. unfold to_int, wrap. cbv zeta.
  destruct (Z_lt_le_dec z 0) as [Hneg|Hpos].
  - replace (z mod 2 ^ 32) with (z + 2 ^ 32).
    + destruct (z + 2 ^ 32 <? 2 ^ 31) eqn:Hlt; lia.
    + apply (Z.mod_unique_pos _ _ (-1)); lia.
  - rewrite Z.mod_small by lia. destruct (z <? 2 ^ 31) eqn:Hlt; lia.
Qed.

Lemma length_store_at (buf : list ascii) (off : nat) (data : list ascii) :
  (off + length data <= length buf)%nat ->
  length (store_at buf off data) = length buf.
Proof.
  intros Hfit. unfold store_at.
  rewrite !length_app, length_take, length_drop. lia.
Qed.

Lemma take_store_at (buf : list ascii) (off : nat) (data : list ascii) :
  (off <= length buf)%nat -> take off (store_at buf off data) = take off buf.
Proof.
  intros Hoff. unfold store_at.
  rewrite take_app_le by (rewrite length_take; lia).
  rewrite take_take. f_equal. lia.
Qed.

Lemma drop_store_at (buf : list ascii) (off : nat) (data : list ascii) :
  (off <= length buf)%nat ->
  drop off (store_at buf off data) = data ++ drop (off + length data) buf.
Proof.
  intros Hoff. unfold store_at.
  rewrite drop_app_length' by (rewrite length_take; lia). reflexivity.
Qed.

Lemma cstr_app_nul (s rest : list ascii) :
  NUL ∉ s -> cstr (s ++ NUL :: rest) = s.
Proof.
  induction s as [|c s IH]; intros Hs; simpl.
  - destruct (decide (NUL = NUL)); congruence.
  - destruct (decide (c = NUL)) as [->|Hc].
    + exfalso. apply Hs. left.
    + f_equal. apply IH. intros Hin. apply Hs. now right.
Qed.

Lemma cstr_no_nul (buf : list ascii) : NUL ∉ cstr buf.
Proof.
  induction buf as [|c buf IH]; simpl; [apply not_elem_of_nil|].
  destruct (decide (c = NUL)); [apply not_elem_of_nil|].
  apply not_elem_of_cons. auto.
Qed.

Lemma cstr_id (s : list ascii) : NUL ∉ s -> cstr s = s.
Proof.
  induction s as [|c s IH]; intros Hs; simpl; [reflexivity|].
  apply not_elem_of_cons in Hs as [Hc Hs].
  destruct (decide (c = NUL)); [congruence|]. f_equal. auto.
Qed.

Lemma cstr_take_prefix (s : list ascii) : exists rest, s = cstr s ++ rest.
Proof.
  induction s as [|c s [rest IH]]; simpl; [exists []; reflexivity|].
  destruct (decide (c = NUL)).
  - exists (c :: s). reflexivity.
  - exists rest. simpl. now rewrite <- IH.
Qed.

(** ** Directory path building *)

(** C6 as the code has it: an append computes the room left as the size
    of the buffer minus the offset.  A string that fits (with its NUL)
    is copied to the offset, which advances by the length of the string
    and stays below the size of the buffer.  A string that does not fit
    makes the call return -E2BIG with the offset as it was; the bytes
    before the offset are never touched, the bytes from the offset on
    then hold the part of the string that fits, ended by a NUL. *)
Theorem trace_dir_update_bounded (str : cstring) (t : trace) (w : world) :
  dir_wf t ->
  let capacity := Z.of_nat (length (dir t)) in
  let remaining := capacity - dir_offset t in
  let off := Z.to_nat (dir_offset t) in
  exists rc t' w',
    trace_dir_update str t w = (rc, t', w') /\
    length (dir t') = length (dir t) /\
    take off (dir t') = take off (dir t) /\
    (strlen str < remaining ->
       rc = strlen str /\ w' = w /\
       dir_offset t' = dir_offset t + strlen str /\
       dir_offset t' < capacity /\
       cstr (drop off (dir t')) = cstr str) /\
    (remaining <= strlen str ->
       rc = - E2BIG /\ rte_errno w' = E2BIG /\
       dir_offset t' = dir_offset t /\
       (0 < remaining ->
          drop off (dir t') =
            take (Z.to_nat (remaining - 1)) (cstr str) ++ [NUL])).
Proof.
  intros [Hoff Hsize] capacity remaining off.
  unfold trace_dir_update, rte_strscpy, strlen.
  rewrite to_int_small by lia.
  rewrite (wrap_small 64) by lia.
  fold capacity. fold remaining. fold off.
  destruct (length (cstr str) <? Z.to_nat remaining)%nat eqn:Hfit.
  - apply Nat.ltb_lt in Hfit.
    destruct (Z.of_nat (length (cstr str)) <? 0) eqn:Hneg; [lia|].
    eexists _, _, _. split; [reflexivity|]. cbn [dir set_dir set_dir_offset dir_offset].
    split; [apply length_store_at; rewrite length_app; simpl; lia|].
    split; [apply take_store_at; lia|].
    split; [|intros; lia].
    intros _. rewrite to_int_small by lia.
    repeat split; try lia.
    rewrite drop_store_at by lia. rewrite <- app_assoc. simpl.
    apply cstr_app_nul, cstr_no_nul.
  - apply Nat.ltb_ge in Hfit.
    change (- E2BIG <? 0) with true. cbv iota.
    eexists _, _, _. split; [reflexivity|]. cbn [dir set_dir dir_offset].
    destruct (Z.to_nat remaining) as [|room] eqn:Hroom.
    + split; [reflexivity|]. split; [reflexivity|].
      split; [intros; lia|]. intros _. repeat split. intros; lia.
    + assert (Hlen : length (take room (cstr str) ++ [NUL]) = S room).
      { rewrite length_app, length_take. simpl. lia. }
      split; [apply length_store_at; lia|].
      split; [apply take_store_at; lia|].
      split; [intros; lia|]. intros _. repeat split. intros _.
      rewrite drop_store_at by lia. rewrite Hlen.
      rewrite drop_ge by lia. rewrite app_nil_r.
      replace (Z.to_nat (remaining - 1)) with room by lia. reflexivity.
Qed.

Lemma trace_dir_update_bounded_witness :
  dir_wf sample_trace /\
  exists rc t' w',
    trace_dir_update (lit "/tmp/") sample_trace sample_world = (rc, t', w') /\
    length (dir t') = length (dir sample_trace) /\
    rc = 5 /\ dir_offset t' = 5.
Proof.
  assert (Hwf : dir_wf sample_trace).
  { unfold dir_wf. vm_compute. repeat split; congruence. }
  split; [exact Hwf|].
  destruct (trace_dir_update_bounded (lit "/tmp/") sample_trace sample_world Hwf)
    as (rc & t' & w' & Hrun & Hlen & _ & Hfits & _).
  exists rc, t', w'. split; [exact Hrun|]. split; [exact Hlen|].
  destruct Hfits as (Hrc & _ & Hoff & _); [vm_compute; reflexivity|].
  split; [exact Hrc|exact Hoff].
Defined.

(** C6 as stated fails: a string that does not fit is still copied as
    far as the buffer goes.  The path buffer holds /tmp/ (offset 5); an
    append of 4096 letters returns -E2BIG and leaves the offset at 5,
    but byte 5 of the buffer, NUL before, is now the first letter. *)
Lemma trace_dir_update_overwrites_tail :
  let t0 :=
    set_dir_offset 5 (set_dir (store_at (dir sample_trace) 0 (lit "/tmp/")) sample_trace) in
  let '(rc, t', _) := trace_dir_update (replicate 4096 "a"%char) t0 sample_world in
  Z.of_nat (length (dir t0)) - dir_offset t0 <= strlen (replicate 4096 "a"%char) /\
  rc = - E2BIG /\ dir_offset t' = dir_offset t0 /\
  dir t0 !! 5%nat = Some NUL /\ dir t' !! 5%nat = Some "a"%char /\
  drop 5 (dir t') <> drop 5 (dir t0).
Proof.
  vm_compute. repeat split; try congruence.
Qed.

(** ** Session names *)

Lemma digit_not_nul (d : Z) : 0 <= d <= 9 -> digit d <> NUL.
Proof.
  intros Hd.
  assert (Hcases : d = 0 \/ d = 1 \/ d = 2 \/ d = 3 \/ d = 4 \/ d = 5 \/
                   d = 6 \/ d = 7 \/ d = 8 \/ d = 9) by lia.
  repeat (destruct Hcases as [-> | Hcases]; [discriminate|]).
  subst d. discriminate.
Qed.

Lemma pad2_no_nul (z : Z) : NUL ∉ pad2 z.
Proof.
  unfold pad2. intros Hin.
  apply elem_of_cons in Hin as [Heq|Hin].
  - symmetry in Heq. revert Heq. apply digit_not_nul.
    pose proof (Z.mod_pos_bound (z / 10) 10). lia.
  - apply elem_of_cons in Hin as [Heq|Hin]; [|inversion Hin].
    symmetry in Heq. revert Heq. apply digit_not_nul.
    pose proof (Z.mod_pos_bound z 10). lia.
Qed.

Lemma string_of_uint_no_nul (d : Decimal.uint) :
  NUL ∉ lit (NilEmpty.string_of_uint d).
Proof.
  induction d; simpl; try apply not_elem_of_nil;
    apply not_elem_of_cons; (split; [discriminate|assumption]).
Qed.

Lemma decimal_no_nul (z : Z) : NUL ∉ decimal z.
Proof.
  unfold decimal, NilEmpty.string_of_int. destruct (Z.to_int z) as [d|d].
  - apply string_of_uint_no_nul.
  - simpl. apply not_elem_of_cons. split; [discriminate|apply string_of_uint_no_nul].
Qed.

(** A year of four digits prints as four characters. *)
Lemma decimal_year_length (y : Z) : 1000 <= y <= 9999 -> length (decimal y) = 4%nat.
Proof.
  intros Hy.
  assert (Hall : forallb (fun n => (length (decimal (1000 + Z.of_nat n)) =? 4)%nat)
                   (seq 0 (Z.to_nat 9000)) = true) by (vm_compute; reflexivity).
  rewrite forallb_forall in Hall.
  specialize (Hall (Z.to_nat (y - 1000))).
  replace (1000 + Z.of_nat (Z.to_nat (y - 1000))) with y in Hall by lia.
  apply Nat.eqb_eq, Hall, in_seq. lia.
Qed.

Lemma strftime_text_session (r : tm) :
  strftime_text (lit "%Y-%m-%d-%p-%I-%M-%S") r = session_stamp r.
Proof.
  unfold session_stamp. cbn. repeat rewrite <- app_assoc. reflexivity.
Qed.

Lemma session_stamp_length (r : tm) :
  1000 <= tm_year r + 1900 <= 9999 -> length (session_stamp r) = 22%nat.
Proof.
  intros Hy. unfold session_stamp. rewrite !length_app.
  rewrite (decimal_year_length _ Hy). destruct (tm_hour r <? 12); reflexivity.
Qed.

Lemma session_stamp_no_nul (r : tm) : NUL ∉ session_stamp r.
Proof.
  unfold session_stamp. rewrite !not_elem_of_app.
  assert (Hdash : NUL ∉ lit "-").
  { apply not_elem_of_cons. split; [discriminate|apply not_elem_of_nil]. }
  repeat split; auto using decimal_no_nul, pad2_no_nul.
  destruct (tm_hour r <? 12);
    repeat (apply not_elem_of_cons; split; [discriminate|]); apply not_elem_of_nil.
Qed.

(** The session buffer after the prefix, the separator and the stamp
    were stored. *)
Lemma session_buffer (px st buf : list ascii) (c : ascii) :
  (length px + 1 + length st + 1 <= length buf)%nat ->
  store_at (<[length px := c]> (store_at buf 0 (px ++ [NUL])))
    (length px + 1) (st ++ [NUL]) =
  px ++ [c] ++ st ++ [NUL] ++ drop (length px + 1 + length st + 1) buf.
Proof.
  intros Hfit.
  assert (Hfirst : <[length px := c]> (store_at buf 0 (px ++ [NUL])) =
                   (px ++ [c]) ++ drop (length px + 1) buf).
  { unfold store_at. simpl take. simpl app at 1.
    rewrite <- (app_assoc px [NUL]).
    rewrite insert_app_r_alt by lia. rewrite Nat.sub_diag. simpl.
    rewrite length_app. simpl length. rewrite <- app_assoc. reflexivity. }
  rewrite Hfirst. unfold store_at.
  assert (Hlen : length (px ++ [c]) = (length px + 1)%nat)
    by (rewrite length_app; reflexivity).
  rewrite take_app_length' by (symmetry; exact Hlen).
  rewrite drop_app_ge by lia. rewrite Hlen, drop_drop.
  rewrite length_app. simpl length.
  replace (length px + 1 + (length px + 1 + (length st + 1) - (length px + 1)))%nat
    with (length px + 1 + length st + 1)%nat by lia.
  rewrite <- !app_assoc. reflexivity.
Qed.

Section SessionName.

Variable TRACE_PREFIX_LEN : Z.
Variable TRACE_DIR_STR_LEN : Z.

(** C7 as the code has it, for a session buffer of TRACE_DIR_STR_LEN
    bytes that leaves 23 bytes or more behind the prefix.  When time()
    fails, or when localtime() fails on a time whose conversion to int
    is not -1, the call fails with the negated errno.  When both
    succeed, for a time whose conversion to int is not -1, a file prefix
    shorter than TRACE_PREFIX_LEN and a year of four digits, the
    session name is the prefix, the separator [-] and the timestamp in
    the order year, month, day, AM or PM, hour on the 12-hour clock,
    minute, second (<prefix>-<YYYY>-<MM>-<DD>-<AM|PM>-<HH>-<MM>-<SS>),
    and the call returns 22, the length of the timestamp. *)
Theorem trace_session_name_generate_layout (E : env) (buf : list ascii) (w : world) :
  0 < TRACE_PREFIX_LEN ->
  TRACE_PREFIX_LEN + 23 <= TRACE_DIR_STR_LEN ->
  Z.of_nat (length buf) = TRACE_DIR_STR_LEN ->
  (forall e, time_at E (ticks w) = Err e ->
     exists buf' w',
       trace_session_name_generate TRACE_PREFIX_LEN TRACE_DIR_STR_LEN E buf w =
         (- Z.pos e, buf', w') /\ - Z.pos e < 0) /\
  (forall now e,
     time_at E (ticks w) = Ok now -> to_int now <> -1 ->
     localtime_of E now = Err e ->
     exists buf' w',
       trace_session_name_generate TRACE_PREFIX_LEN TRACE_DIR_STR_LEN E buf w =
         (- Z.pos e, buf', w') /\ - Z.pos e < 0) /\
  (forall now r,
     time_at E (ticks w) = Ok now -> to_int now <> -1 ->
     localtime_of E now = Ok r ->
     strlen (hugefile_prefix E) < TRACE_PREFIX_LEN ->
     1000 <= tm_year r + 1900 <= 9999 ->
     exists buf',
       trace_session_name_generate TRACE_PREFIX_LEN TRACE_DIR_STR_LEN E buf w =
         (22, buf', tick w) /\
       cstr buf' = cstr (hugefile_prefix E) ++ lit "-" ++ session_stamp r).
Proof.
  intros Hpl Hdl Hbuf. split; [|split].
  - intros e Htime. unfold trace_session_name_generate, time. rewrite Htime.
    change (to_int (-1)) with (-1).
    destruct (decide (-1 = -1)) as [_|Hne]; [|congruence].
    unfold session_name_fail. cbn [errno rte_errno set_errno set_rte_errno tick].
    eexists _, _. split; [reflexivity|lia].
  - intros now e Htime Hnow Hlocal.
    unfold trace_session_name_generate, time, localtime. rewrite Htime.
    destruct (decide (to_int now = -1)) as [Heq|_]; [congruence|].
    rewrite Hlocal. unfold session_name_fail.
    cbn [errno rte_errno set_errno set_rte_errno tick].
    eexists _, _. split; [reflexivity|lia].
  - intros now r Htime Hnow Hlocal Hprefix Hyear.
    unfold strlen in Hprefix.
    unfold trace_session_name_generate, time, localtime. rewrite Htime.
    destruct (decide (to_int now = -1)) as [Heq|_]; [congruence|].
    rewrite Hlocal. unfold rte_strscpy.
    destruct (length (cstr (hugefile_prefix E)) <? Z.to_nat TRACE_PREFIX_LEN)%nat
      eqn:Hfit; [|apply Nat.ltb_ge in Hfit; lia].
    destruct (decide (Z.of_nat (length (cstr (hugefile_prefix E))) = - E2BIG))
      as [Hbig|_]; [unfold E2BIG in Hbig; lia|].
    unfold strftime. rewrite strftime_text_session.
    rewrite (session_stamp_length r Hyear).
    destruct (Z.of_nat 22 <? TRACE_DIR_STR_LEN -
                (Z.of_nat (length (cstr (hugefile_prefix E))) + 1)) eqn:Hroom;
      [|apply Z.ltb_ge in Hroom; lia].
    destruct (decide (Z.of_nat 22 = 0)) as [Hzero|_]; [lia|].
    eexists. split; [reflexivity|].
    rewrite Nat2Z.id.
    replace (Z.to_nat (Z.of_nat (length (cstr (hugefile_prefix E))) + 1))
      with (length (cstr (hugefile_prefix E)) + 1)%nat by lia.
    rewrite session_buffer
      by (rewrite (session_stamp_length r Hyear); lia).
    replace (cstr (hugefile_prefix E) ++ [("-")%char] ++ session_stamp r ++
             [NUL] ++ drop (length (cstr (hugefile_prefix E)) + 1 +
                            length (session_stamp r) + 1) buf)
      with ((cstr (hugefile_prefix E) ++ lit "-" ++ session_stamp r) ++
            NUL :: drop (length (cstr (hugefile_prefix E)) + 1 +
                         length (session_stamp r) + 1) buf)
      by (rewrite <- !app_assoc; reflexivity).
    apply cstr_app_nul. rewrite !not_elem_of_app.
    split; [apply cstr_no_nul|]. split; [|apply session_stamp_no_nul].
    apply not_elem_of_cons. split; [discriminate|apply not_elem_of_nil].
Qed.

End SessionName.

Lemma trace_session_name_generate_layout_witness :
  exists buf',
    trace_session_name_generate 12 35 sample_env (replicate 35 NUL) sample_world =
      (22, buf', tick sample_world) /\
    cstr buf' = lit "rte-2020-04-23-PM-03-07-09".
Proof.
  destruct (trace_session_name_generate_layout 12 35 sample_env
              (replicate 35 NUL) sample_world) as (_ & _ & Hok);
    [lia|lia|reflexivity|].
  destruct (Hok 1587654429 (Tm 9 7 15 23 3 120)) as (buf' & Hrun & Hname);
    [reflexivity|vm_compute; congruence|reflexivity|vm_compute; reflexivity
    |simpl; lia|].
  exists buf'. split; [exact Hrun|]. rewrite Hname. reflexivity.
Defined.

(** C7 as stated fails: on 23 April 2020, 15:07:09, with the prefix
    [rte], the session name is rte-2020-04-23-PM-03-07-09, not the
    day-first rte-23-04-2020-PM-03-07-09 of the specification. *)
Lemma trace_session_name_generate_year_first :
  let '(rc, buf', _) :=
    trace_session_name_generate 12 35 sample_env (replicate 35 NUL) sample_world in
  0 < rc /\
  cstr buf' = lit "rte-2020-04-23-PM-03-07-09" /\
  lit "rte" ++ lit "-" ++ spec_session_stamp (Tm 9 7 15 23 3 120) =
    lit "rte-23-04-2020-PM-03-07-09" /\
  cstr buf' <> lit "rte" ++ lit "-" ++ spec_session_stamp (Tm 9 7 15 23 3 120).
Proof.
  vm_compute. repeat split; congruence.
Qed.

(** A prefix of TRACE_PREFIX_LEN characters or more: the copy leaves
    eleven characters and a NUL, the separator lands behind that NUL,
    the timestamp no longer fits the 22 bytes left, and with errno at 0
    the call returns 0 with a session name that is the cut prefix alone. *)
Example trace_session_name_generate_long_prefix :
  let '(rc, buf', _) :=
    trace_session_name_generate 12 35 long_prefix_env (replicate 35 NUL) sample_world in
  rc = 0 /\ cstr buf' = lit "dpdk_testap" /\
  buf' !! 11%nat = Some NUL /\ buf' !! 12%nat = Some "-"%char.
Proof. vm_compute. repeat split. Qed.

(** A time that is no failure but whose conversion to int is -1, the
    last second that fits 32 bits: the test on time() takes it for a
    failure, and with errno at 0 the call returns 0 and writes no name. *)
Example trace_session_name_generate_year_2106 :
  time_at year_2106_env 0%nat = Ok 4294967295 /\ to_int 4294967295 = -1 /\
  trace_session_name_generate 12 35 year_2106_env (replicate 35 NUL) sample_world =
    (0, replicate 35 NUL, tick sample_world).
Proof. vm_compute. repeat split. Qed.

(** ** Creating the directories *)

Lemma mkdir_exists (E : env) (p : path) (w : world) :
  mkdir_fault_at E (ticks w) p = None -> p ∈ dirs w ->
  mkdir E p w =
    (-1, emit (EvMkdir p (Some 17%positive)) (set_errno EEXIST (tick w))).
Proof.
  intros Hfault Hin. unfold mkdir. rewrite Hfault.
  destruct (decide (p ∈ dirs w)); [reflexivity|contradiction].
Qed.

Lemma mkdir_fresh (E : env) (p : path) (w : world) :
  mkdir_fault_at E (ticks w) p = None -> p ∉ dirs w ->
  mkdir E p w = (0, emit (EvMkdir p None) (set_dirs ({[p]} ∪ dirs w) (tick w))).
Proof.
  intros Hfault Hin. unfold mkdir. rewrite Hfault.
  destruct (decide (p ∈ dirs w)); [contradiction|reflexivity].
Qed.

Lemma mkdir_fault (E : env) (p : path) (w : world) (e : positive) :
  mkdir_fault_at E (ticks w) p = Some e ->
  mkdir E p w = (-1, emit (EvMkdir p (Some e)) (set_errno (Z.pos e) (tick w))).
Proof. intros Hfault. unfold mkdir. rewrite Hfault. reflexivity. Qed.

Section Mkdir.

Variable TRACE_PREFIX_LEN : Z.
Variable TRACE_DIR_STR_LEN : Z.

(** The two mkdir tests of trace_mkdir, each taken by itself.  Once the
    base path is set ([trace_mkdir_default] did not fail), a base
    directory that is there already passes the first test and
    trace_mkdir goes on to the session part, in a world whose errno is
    EEXIST; any other failure of that mkdir is returned as the negated
    errno.  Once a session name is made and appended, the mkdir of the
    session directory makes trace_mkdir fail with the negated errno
    whatever the error is, the directory being there already (EEXIST)
    included.  What the session part returns when no session name is
    made is not part of this statement. *)
Theorem trace_mkdir_exists_policy (E : env) (session : list ascii)
    (t : trace) (w : world) (rc0 : Z) (t1 : trace) (w1 : world) :
  trace_mkdir_default E t w = (rc0, t1, w1) -> 0 <= rc0 ->
  let base := cstr (dir t1) in
  (mkdir_fault_at E (ticks w1) base = None -> base ∈ dirs w1 ->
     trace_mkdir TRACE_PREFIX_LEN TRACE_DIR_STR_LEN E session t w =
       trace_mkdir_session TRACE_PREFIX_LEN TRACE_DIR_STR_LEN E session t1
         (emit (EvMkdir base (Some 17%positive)) (set_errno EEXIST (tick w1)))) /\
  (mkdir_fault_at E (ticks w1) base = None -> base ∉ dirs w1 ->
     trace_mkdir TRACE_PREFIX_LEN TRACE_DIR_STR_LEN E session t w =
       trace_mkdir_session TRACE_PREFIX_LEN TRACE_DIR_STR_LEN E session t1
         (emit (EvMkdir base None) (set_dirs ({[base]} ∪ dirs w1) (tick w1)))) /\
  (forall e, mkdir_fault_at E (ticks w1) base = Some e -> Z.pos e = EEXIST ->
     trace_mkdir TRACE_PREFIX_LEN TRACE_DIR_STR_LEN E session t w =
       trace_mkdir_session TRACE_PREFIX_LEN TRACE_DIR_STR_LEN E session t1
         (emit (EvMkdir base (Some e)) (set_errno EEXIST (tick w1)))) /\
  (forall e, mkdir_fault_at E (ticks w1) base = Some e -> Z.pos e <> EEXIST ->
     exists w',
       trace_mkdir TRACE_PREFIX_LEN TRACE_DIR_STR_LEN E session t w = (- Z.pos e, t1, w') /\
       - Z.pos e < 0 /\ dirs w' = dirs w1) /\
  (forall w2 rc1 session' w3 rc2 t2 w4,
     trace_session_name_generate TRACE_PREFIX_LEN TRACE_DIR_STR_LEN E session w2 = (rc1, session', w3) -> 0 <= rc1 ->
     trace_dir_update session' t1 w3 = (rc2, t2, w4) -> 0 <= rc2 ->
     let final := cstr (dir t2) in
     (mkdir_fault_at E (ticks w4) final = None -> final ∈ dirs w4 ->
        exists w',
          trace_mkdir_session TRACE_PREFIX_LEN TRACE_DIR_STR_LEN E session t1 w2 = (- EEXIST, t2, w') /\
          dirs w' = dirs w4) /\
     (forall e, mkdir_fault_at E (ticks w4) final = Some e ->
        exists w',
          trace_mkdir_session TRACE_PREFIX_LEN TRACE_DIR_STR_LEN E session t1 w2 = (- Z.pos e, t2, w') /\
          - Z.pos e < 0 /\ dirs w' = dirs w4) /\
     (mkdir_fault_at E (ticks w4) final = None -> final ∉ dirs w4 ->
        exists w',
          trace_mkdir_session TRACE_PREFIX_LEN TRACE_DIR_STR_LEN E session t1 w2 = (0, t2, w') /\
          dirs w' = {[final]} ∪ dirs w4)).
Proof.
  intros Hdefault Hrc0 base.
  assert (Hnneg : forall z, 0 <= z -> (z <? 0) = false) by (intros; lia).
  split; [|split; [|split; [|split]]].
  - intros Hfault Hin. unfold trace_mkdir. rewrite Hdefault, (Hnneg _ Hrc0).
    fold base. rewrite (mkdir_exists E base w1 Hfault Hin). reflexivity.
  - intros Hfault Hin. unfold trace_mkdir. rewrite Hdefault, (Hnneg _ Hrc0).
    fold base. rewrite (mkdir_fresh E base w1 Hfault Hin). reflexivity.
  - intros e Hfault Heq. unfold trace_mkdir. rewrite Hdefault, (Hnneg _ Hrc0).
    fold base. rewrite (mkdir_fault E base w1 e Hfault).
    cbn [errno set_errno emit tick]. rewrite Heq, Z.eqb_refl. reflexivity.
  - intros e Hfault Hne. unfold trace_mkdir. rewrite Hdefault, (Hnneg _ Hrc0).
    fold base. rewrite (mkdir_fault E base w1 e Hfault).
    cbn [errno set_errno emit tick].
    destruct (Z.pos e =? EEXIST) eqn:Heq; [apply Z.eqb_eq in Heq; contradiction|].
    simpl andb. cbv iota. unfold mkdir_failed.
    eexists. split; [reflexivity|]. split; [lia|reflexivity].
  - intros w2 rc1 session' w3 rc2 t2 w4 Hname Hrc1 Hupdate Hrc2 final.
    split; [|split].
    + intros Hfault Hin. unfold trace_mkdir_session.
      rewrite Hname, (Hnneg _ Hrc1), Hupdate, (Hnneg _ Hrc2). fold final.
      rewrite (mkdir_exists E final w4 Hfault Hin).
      eexists. split; reflexivity.
    + intros e Hfault. unfold trace_mkdir_session.
      rewrite Hname, (Hnneg _ Hrc1), Hupdate, (Hnneg _ Hrc2). fold final.
      rewrite (mkdir_fault E final w4 e Hfault).
      eexists. split; [reflexivity|]. split; [lia|reflexivity].
    + intros Hfault Hin. unfold trace_mkdir_session.
      rewrite Hname, (Hnneg _ Hrc1), Hupdate, (Hnneg _ Hrc2). fold final.
      rewrite (mkdir_fresh E final w4 Hfault Hin).
      eexists. split; reflexivity.
Qed.

End Mkdir.

Lemma triple_eta {A B C : Type} (x : A * B * C) :
  x = (fst (fst x), snd (fst x), snd x).
Proof. destruct x as [[a b] c]. reflexivity. Qed.

Lemma trace_mkdir_exists_policy_witness :
  exists t' w',
    trace_mkdir 12 35 sample_env (replicate 35 NUL) sample_trace
      (set_dirs {[ lit "/home/dpdk/dpdk-traces/";
                   lit "/home/dpdk/dpdk-traces/rte-2020-04-23-PM-03-07-09" ]}
         sample_world) = (- EEXIST, t', w') /\
    cstr (dir t') = lit "/home/dpdk/dpdk-traces/rte-2020-04-23-PM-03-07-09".
Proof.
  set (w0 := set_dirs _ sample_world).
  set (d := trace_mkdir_default sample_env sample_trace w0).
  destruct (trace_mkdir_exists_policy 12 35 sample_env (replicate 35 NUL)
              sample_trace w0 _ _ _ (triple_eta d)) as (Hexists & _ & _ & _ & Hfinal).
  { vm_compute. discriminate. }
  rewrite Hexists; [|reflexivity|vm_compute; reflexivity].
  set (w2 := emit _ _) in *.
  set (n := trace_session_name_generate 12 35 sample_env (replicate 35 NUL) w2).
  set (u := trace_dir_update (snd (fst n)) (snd (fst d)) (snd n)).
  destruct (Hfinal w2 _ _ _ _ _ _ (triple_eta n)
              ltac:(vm_compute; discriminate) (triple_eta u)
              ltac:(vm_compute; discriminate)) as (Hthere & _ & _).
  destruct Hthere as (w' & Hrun & _); [reflexivity|vm_compute; reflexivity|].
  exists (snd (fst u)), w'. split; [exact Hrun|vm_compute; reflexivity].
Defined.

(** C5 on a file prefix of 13 characters, with TRACE_PREFIX_LEN 12 and
    TRACE_DIR_STR_LEN 35.  With the base directory there already,
    trace_mkdir returns -EEXIST, although the one mkdir it made is the
    mkdir of the base directory, whose EEXIST it let pass: no session
    name is made, the fail path of trace_session_name_generate returns
    the errno that mkdir left behind, and no session directory is tried.
    The same call without the base directory returns 0.  With the
    prefix [rte], an existing base directory is tolerated as the test
    in trace_mkdir means it: the session directory is made and the call
    returns 0. *)
Theorem trace_mkdir_base_exists_refused :
  let base := lit "/home/dpdk/dpdk-traces/" in
  let there := set_dirs {[ base ]} sample_world in
  (let '(rc, t', w') :=
     trace_mkdir 12 35 long_prefix_env (replicate 35 NUL) sample_trace there in
   rc = - EEXIST /\ cstr (dir t') = base /\
   elements (dirs w') = [base] /\
   trail w' = [EvMkdir base (Some 17%positive)]) /\
  (let '(rc, t', w') :=
     trace_mkdir 12 35 long_prefix_env (replicate 35 NUL) sample_trace sample_world in
   rc = 0 /\ cstr (dir t') = base ++ lit "dpdk_testap" /\
   trail w' =
     [ EvMkdir base None;
       EvMkdir (base ++ lit "dpdk_testap") None;
       EvInfo (lit "Trace dir: " ++ base ++ lit "dpdk_testap") ]) /\
  (let '(rc, t', w') :=
     trace_mkdir 12 35 sample_env (replicate 35 NUL) sample_trace there in
   rc = 0 /\ cstr (dir t') = base ++ lit "rte-2020-04-23-PM-03-07-09" /\
   trail w' =
     [ EvMkdir base (Some 17%positive);
       EvMkdir (base ++ lit "rte-2020-04-23-PM-03-07-09") None;
       EvInfo (lit "Trace dir: " ++ base ++ lit "rte-2020-04-23-PM-03-07-09") ]).
Proof. vm_compute. repeat split. Qed.

(** ** Persistence engine *)

Lemma snprintf_rc (size : Z) (text : cstring) : (fst (snprintf size text) <? 0) = false.
Proof. unfold snprintf. cbn [fst]. apply Z.ltb_ge. lia. Qed.


Lemma decimal_inj (a b : Z) : decimal a = decimal b -> a = b.
Proof.
  unfold decimal, lit. intros Heq.
  apply (f_equal string_of_list_ascii) in Heq.
  rewrite !string_of_list_ascii_of_string in Heq.
  apply (f_equal NilEmpty.int_of_string) in Heq.
  rewrite !NilEmpty.isi in Heq. injection Heq as Heq.
  rewrite <- (DecimalZ.of_to a), <- (DecimalZ.of_to b), Heq. reflexivity.
Qed.

(** Two regions whose file names fit PATH_MAX have different names. *)
Lemma channel_name_distinct (t : trace) (i j : Z) :
  - 2 ^ 31 <= i < 2 ^ 31 -> - 2 ^ 31 <= j < 2 ^ 31 -> i <> j ->
  fst (channel_name t i) < PATH_MAX -> fst (channel_name t j) < PATH_MAX ->
  snd (channel_name t i) <> snd (channel_name t j).
Proof.
  intros Hi Hj Hne. unfold channel_name, snprintf. cbn [fst snd].
  rewrite !to_int_small by lia. intros Hfit_i Hfit_j.
  rewrite !take_ge by lia. intros Heq.
  apply app_inv_head, app_inv_head, decimal_inj in Heq. contradiction.
Qed.






Section PersistenceFacts.

Variable STREAM_HEADER_SIZE : Z.
Variable E : env.

Local Abbreviation mem_save := (trace_mem_save STREAM_HEADER_SIZE E).
Local Abbreviation save_loop := (trace_save_loop STREAM_HEADER_SIZE E).
Local Abbreviation file_of t cnt := (snd (channel_name t cnt)).





(** C2: with no worker region registered rte_trace_save returns 0 and
    does nothing: struct trace and the world (files, trail, errno) are
    as before, so neither the metadata file nor a channel file is made. *)
Theorem rte_trace_save_no_region (t : trace) (w : world) :
  nb_trace_mem_list t = 0 ->
  rte_trace_save STREAM_HEADER_SIZE E t w = (0, t, w).
Proof.
  intros Hzero. unfold rte_trace_save.
  destruct (decide (nb_trace_mem_list t = 0)); [reflexivity|contradiction].
Qed.





End PersistenceFacts.

Lemma rte_trace_save_no_region_witness :
  nb_trace_mem_list sample_trace = 0 /\
  rte_trace_save 56 sample_env sample_trace sample_world =
    (0, sample_trace, sample_world).
Proof.
  split; [reflexivity|].
  apply (rte_trace_save_no_region 56 sample_env sample_trace sample_world).
  reflexivity.
Defined.


(** The run behind the witness: region 0 is written, the file of region
    1 cannot be created, region 2 is never tried, and the lock is free
    again. *)
Example rte_trace_save_full_disk :
  let '(rc, t', w') := rte_trace_save 56 full_disk_env three_regions sample_world in
  rc = -28 /\ lock t' = false /\
  trail w' =
    [ EvFopen (lit "/t/s/metadata") None;
      EvDump (lit "/t/s/metadata") 0;
      EvFclose (lit "/t/s/metadata") None;
      EvLock;
      EvFopen (lit "/t/s/channel0_0") None;
      EvFwrite (lit "/t/s/channel0_0") (replicate 58 "a"%char) 1;
      EvFclose (lit "/t/s/channel0_0") None;
      EvFopen (lit "/t/s/channel0_1") (Some 28%positive);
      EvUnlock ] /\
  files w' !! lit "/t/s/channel0_0" = Some (replicate 58 "a"%char) /\
  files w' !! lit "/t/s/channel0_1" = None /\
  files w' !! lit "/t/s/channel0_2" = None.
Proof. vm_compute. repeat split. Qed.


(** * Further properties *)

(** ** Argument store: what a save stores *)

Lemma store_at_zero_block (s : list ascii) :
  store_at (replicate (length s + 1) NUL) 0 s = s ++ [NUL].
Proof.
  unfold store_at. cbn [take app Nat.add].
  rewrite drop_replicate. replace (length s + 1 - length s)%nat with 1%nat by lia.
  reflexivity.
Qed.

(** Below the limit a save that gets its memory returns 0, raises the
    count by one and puts a fresh block holding the pattern and its NUL
    into the first free slot, every other slot and every other block
    staying as they were; a save that gets no memory returns -ENOMEM and
    leaves struct trace and the heap alone. *)
Theorem eal_trace_args_save_stores (TRACE_MAX_ARGS : Z) (E : env)
    (optarg : cstring) (t : trace) (w : world) :
  0 <= nb_args t < TRACE_MAX_ARGS -> TRACE_MAX_ARGS <= 255 ->
  Z.of_nat (length (args t)) = TRACE_MAX_ARGS ->
  (calloc_ok_at E (ticks w) = true ->
   exists p t' w',
     eal_trace_args_save TRACE_MAX_ARGS E optarg t w = (0, t', w') /\
     heap w !! p = None /\
     heap w' !! p = Some (cstr optarg ++ [NUL]) /\
     (forall q, q <> p -> heap w' !! q = heap w !! q) /\
     nb_args t' = nb_args t + 1 /\
     args t' !! Z.to_nat (nb_args t) = Some (Some p) /\
     (forall k, k <> Z.to_nat (nb_args t) -> args t' !! k = args t !! k)) /\
  (calloc_ok_at E (ticks w) = false ->
   exists w',
     eal_trace_args_save TRACE_MAX_ARGS E optarg t w = (- ENOMEM, t, w') /\
     heap w' = heap w).
Proof.
  intros Hnb Hmax Hlen. unfold eal_trace_args_save, calloc.
  destruct (TRACE_MAX_ARGS <=? nb_args t) eqn:Hfull; [lia|]. split.
  - intros ->. set (p := fresh (dom (heap w))).
    assert (Hfresh : heap w !! p = None) by (apply not_elem_of_dom, is_fresh).
    eexists p, _, _. split; [reflexivity|]. split; [exact Hfresh|].
    unfold memcpy. cbn [heap set_heap tick nb_args args set_args].
    split; [|split; [|split; [|split]]].
    + rewrite lookup_alter_eq, lookup_insert_eq. cbn [fmap option_fmap option_map].
      unfold strlen. f_equal.
      replace (Z.to_nat (Z.of_nat (length (cstr optarg)) + 1))
        with (length (cstr optarg) + 1)%nat by lia.
      apply store_at_zero_block.
    + intros q Hq. rewrite lookup_alter_ne, lookup_insert_ne by congruence.
      reflexivity.
    + unfold to_uint8. apply wrap_small. lia.
    + apply list_lookup_insert_eq. lia.
    + intros k Hk. apply list_lookup_insert_ne. congruence.
  - intros ->. eexists. split; reflexivity.
Qed.

Lemma eal_trace_args_save_stores_witness :
  exists p t' w',
    eal_trace_args_save 32 sample_env (lit "lib.eal.*") sample_trace sample_world =
      (0, t', w') /\
    heap w' !! p = Some (lit "lib.eal.*" ++ [NUL]) /\
    nb_args t' = 1 /\ args t' !! 0%nat = Some (Some p).
Proof.
  destruct (eal_trace_args_save_stores 32 sample_env (lit "lib.eal.*")
              sample_trace sample_world) as (Hok & _);
    [simpl; lia|lia|reflexivity|].
  destruct (Hok eq_refl) as (p & t' & w' & Hrun & _ & Hblock & _ & Hnb & Hslot & _).
  exists p, t', w'. split; [exact Hrun|]. split; [exact Hblock|].
  split; [exact Hnb|exact Hslot].
Defined.

(** ** Argument store: the invariant *)

(** A save keeps the store within its bounds and keeps every entry below
    the count an owned block of its own, whatever its outcome; so
    eal_trace_args_free is defined after it, and it leaves every slot
    below the count NULL and every block the store held freed. *)
Theorem eal_trace_args_save_then_free (TRACE_MAX_ARGS : Z) (E : env)
    (optarg : cstring) (t : trace) (w : world) :
  0 <= nb_args t <= TRACE_MAX_ARGS -> TRACE_MAX_ARGS <= 255 ->
  Z.of_nat (length (args t)) = TRACE_MAX_ARGS ->
  args_owned t w ->
  exists rc t' w' t'' w'',
    eal_trace_args_save TRACE_MAX_ARGS E optarg t w = (rc, t', w') /\
    0 <= nb_args t' <= TRACE_MAX_ARGS /\
    Z.of_nat (length (args t')) = TRACE_MAX_ARGS /\
    args_owned t' w' /\
    eal_trace_args_free t' w' = Some (t'', w'') /\
    (forall k, (k < Z.to_nat (nb_args t'))%nat -> args t'' !! k = Some None) /\
    (forall k p, (k < Z.to_nat (nb_args t'))%nat ->
       args t' !! k = Some (Some p) -> heap w'' !! p = None).
Proof.
  intros Hnb Hmax Hlen Hown.
  pose proof (eal_trace_args_save_owned TRACE_MAX_ARGS E optarg t w
                ltac:(lia) Hmax Hlen Hown) as Hown'.
  destruct (eal_trace_args_save TRACE_MAX_ARGS E optarg t w) as [[rc t'] w'] eqn:Hrun.
  cbn [fst snd] in Hown'.
  assert (Hshape : 0 <= nb_args t' <= TRACE_MAX_ARGS /\
                   Z.of_nat (length (args t')) = TRACE_MAX_ARGS).
  { revert Hrun. unfold eal_trace_args_save, calloc.
    destruct (TRACE_MAX_ARGS <=? nb_args t) eqn:Hfull.
    - intros Heq. injection Heq as _ <- _. lia.
    - apply Z.leb_gt in Hfull. destruct (calloc_ok_at E (ticks w)).
      + intros Heq. injection Heq as _ <- _.
        cbn [nb_args args set_args]. rewrite length_insert.
        unfold to_uint8. rewrite wrap_small by lia. lia.
      + intros Heq. injection Heq as _ <- _. lia. }
  destruct Hshape as (Hnb' & Hlen').
  destruct (args_free_loop_spec _ _ _ _ Hown')
    as (a' & w'' & Hfree & _ & Hnull & _ & Hfreed & _ & _).
  exists rc, t', w', (set_args (nb_args t') a' t'), w''.
  split; [reflexivity|]. split; [exact Hnb'|]. split; [exact Hlen'|].
  split; [exact Hown'|]. unfold eal_trace_args_free. rewrite Hfree.
  split; [reflexivity|]. split.
  - intros k Hk. apply Hnull. lia.
  - intros k p Hk. apply Hfreed. lia.
Qed.

Lemma eal_trace_args_save_then_free_witness :
  exists rc t' w' t'' w'',
    eal_trace_args_save 32 sample_env (lit "lib.eal.*") sample_trace sample_world =
      (rc, t', w') /\
    args_owned t' w' /\
    eal_trace_args_free t' w' = Some (t'', w'').
Proof.
  destruct (eal_trace_args_save_then_free 32 sample_env (lit "lib.eal.*")
              sample_trace sample_world)
    as (rc & t' & w' & t'' & w'' & Hrun & _ & _ & Hown & Hfree & _);
    [simpl; lia|lia|reflexivity| |].
  - split; [simpl; lia|]. split.
    + intros k p Hk. simpl in Hk. lia.
    + intros k l p Hk. simpl in Hk. lia.
  - exists rc, t', w', t'', w''. split; [exact Hrun|]. split; [exact Hown|exact Hfree].
Defined.

(** ** Path building: how appends compose *)

Lemma take_no_nul (n : nat) (s : list ascii) : NUL ∉ s -> NUL ∉ take n s.
Proof. intros Hs Hin. apply Hs. eapply subseteq_take. exact Hin. Qed.

Lemma trace_dir_update_fits (str : cstring) (t : trace) (w : world) :
  dir_wf t ->
  strlen str < Z.of_nat (length (dir t)) - dir_offset t ->
  trace_dir_update str t w =
    (strlen str,
     set_dir_offset (dir_offset t + strlen str)
       (set_dir (store_at (dir t) (Z.to_nat (dir_offset t)) (cstr str ++ [NUL])) t),
     w).
Proof.
  intros [Hoff Hsize] Hfit. unfold strlen in *.
  unfold trace_dir_update, rte_strscpy.
  rewrite to_int_small by lia. rewrite (wrap_small 64) by lia.
  destruct (length (cstr str) <?
            Z.to_nat (Z.of_nat (length (dir t)) - dir_offset t))%nat eqn:Hlt;
    [|apply Nat.ltb_ge in Hlt; lia].
  destruct (Z.of_nat (length (cstr str)) <? 0) eqn:Hneg; [lia|].
  rewrite to_int_small by lia. reflexivity.
Qed.

Lemma trace_dir_update_cut (str : cstring) (t : trace) (w : world) :
  dir_wf t ->
  0 < Z.of_nat (length (dir t)) - dir_offset t <= strlen str ->
  trace_dir_update str t w =
    (- E2BIG,
     set_dir
       (store_at (dir t) (Z.to_nat (dir_offset t))
          (take (Z.to_nat (Z.of_nat (length (dir t)) - dir_offset t - 1)) (cstr str)
             ++ [NUL])) t,
     set_rte_errno E2BIG w).
Proof.
  intros [Hoff Hsize] Hcut. unfold strlen in *.
  unfold trace_dir_update, rte_strscpy.
  rewrite to_int_small by lia. rewrite (wrap_small 64) by lia.
  destruct (length (cstr str) <?
            Z.to_nat (Z.of_nat (length (dir t)) - dir_offset t))%nat eqn:Hlt;
    [apply Nat.ltb_lt in Hlt; lia|].
  change (- E2BIG <? 0) with true. cbv iota.
  destruct (Z.to_nat (Z.of_nat (length (dir t)) - dir_offset t)) as [|room] eqn:Hroom;
    [lia|].
  replace (Z.to_nat (Z.of_nat (length (dir t)) - dir_offset t - 1)) with room by lia.
  reflexivity.
Qed.

Lemma dir_holds_cstr (t : trace) (s : cstring) : dir_holds t s -> cstr (dir t) = s.
Proof.
  intros (_ & _ & Hs & rest & ->). apply cstr_app_nul. exact Hs.
Qed.

(** An append that fits turns a buffer holding [s] into one holding [s]
    followed by the string. *)
Lemma dir_holds_update (str : cstring) (t : trace) (w : world) (s : cstring) :
  dir_holds t s ->
  strlen str < Z.of_nat (length (dir t)) - dir_offset t ->
  exists t',
    trace_dir_update str t w = (strlen str, t', w) /\
    dir_holds t' (s ++ cstr str) /\
    length (dir t') = length (dir t).
Proof.
  intros (Hwf & Hoff & Hs & rest & Hdir) Hfit.
  rewrite (trace_dir_update_fits str t w Hwf Hfit).
  eexists. split; [reflexivity|].
  destruct Hwf as [Hrange Hsize]. unfold strlen in *.
  cbn [dir dir_offset set_dir set_dir_offset].
  assert (Hlen : length (dir t) = (length s + S (length rest))%nat).
  { rewrite Hdir, length_app. reflexivity. }
  assert (Hstore : store_at (dir t) (Z.to_nat (dir_offset t)) (cstr str ++ [NUL]) =
            (s ++ cstr str) ++ NUL :: drop (length (cstr str)) rest).
  { unfold store_at. rewrite Hoff, Nat2Z.id, Hdir.
    rewrite take_app_length. rewrite length_app. simpl length.
    rewrite drop_app_ge by lia.
    replace (length s + (length (cstr str) + 1) - length s)%nat
      with (S (length (cstr str))) by lia.
    simpl drop. rewrite <- !app_assoc. reflexivity. }
  assert (Hsame : length (store_at (dir t) (Z.to_nat (dir_offset t))
                                (cstr str ++ [NUL])) = length (dir t)).
  { apply length_store_at. rewrite length_app. simpl length. lia. }
  split; [|exact Hsame].
  split; [|split; [|split]].
  - unfold dir_wf. cbn [dir dir_offset set_dir set_dir_offset].
    rewrite Hsame. lia.
  - cbn [dir dir_offset set_dir set_dir_offset]. rewrite length_app. lia.
  - apply not_elem_of_app. split; [exact Hs|apply cstr_no_nul].
  - eexists. cbn [dir dir_offset set_dir set_dir_offset]. exact Hstore.
Qed.

(** Appends concatenate.  From a buffer that holds the path [s], an
    append that fits returns the length of the string and leaves the
    buffer holding [s] followed by the string, and a second append that
    fits leaves [s] followed by both strings.  An append that does not
    fit returns -E2BIG and keeps the offset, but the C string in the
    buffer is now [s] followed by the part of the string that fitted. *)
Theorem trace_dir_update_appends (a b : cstring) (t : trace) (w : world)
    (s : cstring) :
  dir_holds t s ->
  let room := Z.of_nat (length (dir t)) - Z.of_nat (length s) in
  cstr (dir t) = s /\
  (strlen a < room ->
   exists t1,
     trace_dir_update a t w = (strlen a, t1, w) /\
     dir_holds t1 (s ++ cstr a) /\
     cstr (dir t1) = s ++ cstr a /\
     (strlen b < room - strlen a ->
      exists t2,
        trace_dir_update b t1 w = (strlen b, t2, w) /\
        dir_holds t2 (s ++ cstr a ++ cstr b) /\
        cstr (dir t2) = s ++ cstr a ++ cstr b)) /\
  (room <= strlen a ->
   exists t1 w1,
     trace_dir_update a t w = (- E2BIG, t1, w1) /\
     dir_offset t1 = dir_offset t /\
     cstr (dir t1) = s ++ take (Z.to_nat (room - 1)) (cstr a)).
Proof.
  intros Hholds room.
  pose proof Hholds as (Hwf & Hoff & Hs & rest & Hdir).
  assert (Hroom : room = Z.of_nat (length (dir t)) - dir_offset t)
    by (unfold room; rewrite Hoff; reflexivity).
  split; [exact (dir_holds_cstr t s Hholds)|]. split.
  - intros Hfit. rewrite Hroom in Hfit.
    destruct (dir_holds_update a t w s Hholds Hfit) as (t1 & Hrun1 & Hholds1 & Hlen1).
    exists t1. split; [exact Hrun1|]. split; [exact Hholds1|].
    split; [exact (dir_holds_cstr t1 _ Hholds1)|].
    intros Hfit2.
    assert (Hoff1 : dir_offset t1 = Z.of_nat (length (s ++ cstr a)))
      by (destruct Hholds1 as (_ & H1 & _); exact H1).
    assert (Hfit2' : strlen b < Z.of_nat (length (dir t1)) - dir_offset t1).
    { rewrite Hlen1, Hoff1, length_app. unfold strlen in *. unfold room in Hfit2. lia. }
    destruct (dir_holds_update b t1 w _ Hholds1 Hfit2') as (t2 & Hrun2 & Hholds2 & _).
    rewrite <- app_assoc in Hholds2.
    exists t2. split; [exact Hrun2|]. split; [exact Hholds2|].
    exact (dir_holds_cstr t2 _ Hholds2).
  - intros Hcut.
    assert (Hpos : 0 < room).
    { unfold room. rewrite Hdir, length_app. simpl length. lia. }
    rewrite (trace_dir_update_cut a t w Hwf) by lia.
    eexists _, _. split; [reflexivity|]. cbn [dir dir_offset set_dir].
    split; [reflexivity|].
    replace (Z.of_nat (length (dir t)) - dir_offset t - 1) with (room - 1) by lia.
    unfold store_at. rewrite Hoff, Nat2Z.id.
    replace (take (length s) (dir t)) with s
      by (rewrite Hdir, take_app_length; reflexivity).
    rewrite <- (app_assoc (take (Z.to_nat (room - 1)) (cstr a)) [NUL]).
    rewrite (app_assoc s). cbn [app].
    apply cstr_app_nul. apply not_elem_of_app.
    split; [exact Hs|apply take_no_nul, cstr_no_nul].
Qed.

Lemma sample_trace_holds : dir_holds sample_trace [].
Proof.
  split; [unfold dir_wf; vm_compute; repeat split; congruence|].
  split; [reflexivity|]. split; [apply not_elem_of_nil|].
  exists (replicate (Z.to_nat 4095) NUL). vm_compute. reflexivity.
Qed.

Lemma trace_dir_update_appends_witness :
  exists t1 t2,
    trace_dir_update (lit "/tmp/") sample_trace sample_world = (5, t1, sample_world) /\
    trace_dir_update (lit "run1") t1 sample_world = (4, t2, sample_world) /\
    cstr (dir t2) = lit "/tmp/run1".
Proof.
  destruct (trace_dir_update_appends (lit "/tmp/") (lit "run1") sample_trace
              sample_world [] sample_trace_holds) as (_ & Hfit & _).
  destruct Hfit as (t1 & Hrun1 & _ & _ & Hsecond); [vm_compute; reflexivity|].
  destruct Hsecond as (t2 & Hrun2 & _ & Hpath); [vm_compute; reflexivity|].
  exists t1, t2. split; [exact Hrun1|]. split; [exact Hrun2|exact Hpath].
Defined.

(** ** The directory option *)

Lemma scratch_block_freed (h : gmap loc (list ascii)) (p : loc)
    (f : list ascii -> list ascii) (b : list ascii) :
  h !! p = None -> delete p (alter f p (<[p := b]> h)) = h.
Proof.
  intros Hnone. apply map_eq. intros q. destruct (decide (q = p)) as [->|Hne].
  - rewrite lookup_delete_eq. symmetry. exact Hnone.
  - rewrite lookup_delete_ne, lookup_alter_ne, lookup_insert_ne by congruence.
    reflexivity.
Qed.

Lemma fresh_block_freed (h : gmap loc (list ascii)) (p : loc) (b : list ascii) :
  h !! p = None -> delete p (<[p := b]> h) = h.
Proof.
  intros Hnone. apply map_eq. intros q. destruct (decide (q = p)) as [->|Hne].
  - rewrite lookup_delete_eq. symmetry. exact Hnone.
  - rewrite lookup_delete_ne, lookup_insert_ne by congruence. reflexivity.
Qed.

Lemma cstr_zero_block (text : list ascii) (n : nat) :
  NUL ∉ text -> (length text + 1 <= n)%nat ->
  cstr (store_at (replicate n NUL) 0 (text ++ [NUL])) = text.
Proof.
  intros Htext Hn. unfold store_at. cbn [take app Nat.add].
  rewrite <- app_assoc. cbn [app]. apply cstr_app_nul. exact Htext.
Qed.

Lemma slash_no_nul (s : cstring) : NUL ∉ cstr s ++ lit "/".
Proof.
  apply not_elem_of_app. split; [apply cstr_no_nul|].
  apply not_elem_of_cons. split; [discriminate|apply not_elem_of_nil].
Qed.

(** eal_trace_dir_args_save: a NULL argument gives -EINVAL and a path
    as long as the buffer or longer gives -ENAMETOOLONG, both without
    touching struct trace; a failed allocation gives -ENOMEM.  A path at
    least two characters shorter than the buffer is appended with a
    closing slash to what the buffer holds when that fits, the call
    returning the length appended, and otherwise the call returns -E2BIG
    with the offset as it was; the scratch block is freed either way. *)
Theorem eal_trace_dir_args_save_outcomes (E : env) (t : trace) (w : world)
    (path : cstring) :
  dir_holds t path ->
  let size := Z.of_nat (length (dir t)) in
  eal_trace_dir_args_save E None t w =
    Some (- EINVAL, t, trace_err (lit "no optarg is passed") w) /\
  (forall s, size <= strlen s ->
     eal_trace_dir_args_save E (Some s) t w =
       Some (- ENAMETOOLONG, t, trace_err (lit "input string is too big") w)) /\
  (forall s, strlen s < size -> calloc_ok_at E (ticks w) = false ->
     exists w',
       eal_trace_dir_args_save E (Some s) t w = Some (- ENOMEM, t, w') /\
       heap w' = heap w) /\
  (forall s, strlen s + 1 < size -> calloc_ok_at E (ticks w) = true ->
     (strlen s + 1 < size - Z.of_nat (length path) ->
      exists t' w',
        eal_trace_dir_args_save E (Some s) t w = Some (strlen s + 1, t', w') /\
        dir_holds t' (path ++ cstr s ++ lit "/") /\
        heap w' = heap w) /\
     (size - Z.of_nat (length path) <= strlen s + 1 ->
      exists t' w',
        eal_trace_dir_args_save E (Some s) t w = Some (- E2BIG, t', w') /\
        dir_offset t' = dir_offset t /\
        heap w' = heap w)).
Proof.
  intros Hholds size.
  pose proof Hholds as (Hwf & Hoff & Hpath & rest & Hdir).
  destruct Hwf as [Hrange Hsize].
  assert (Hsz : to_uint32 (Z.of_nat (length (dir t))) = size)
    by (apply wrap_small; lia).
  unfold eal_trace_dir_args_save. rewrite Hsz.
  split; [reflexivity|]. split; [|split].
  - intros s Hlong. destruct (size <=? strlen s) eqn:Hle; [reflexivity|lia].
  - intros s Hshort Hcalloc. destruct (size <=? strlen s) eqn:Hle; [lia|].
    unfold calloc. rewrite Hcalloc. eexists. split; reflexivity.
  - intros s Hshort Hcalloc. destruct (size <=? strlen s) eqn:Hle; [lia|].
    unfold calloc. rewrite Hcalloc. set (p := fresh (dom (heap w))).
    assert (Hfresh : heap w !! p = None) by (apply not_elem_of_dom, is_fresh).
    unfold sprintf. cbn [heap set_heap tick]. rewrite lookup_insert_eq.
    rewrite length_replicate, length_app. cbn [length lit list_ascii_of_string].
    unfold strlen in *.
    destruct (length (cstr s) + 1 + 1 <=? Z.to_nat size)%nat eqn:Hroom;
      [|apply Nat.leb_gt in Hroom; lia].
    apply Nat.leb_le in Hroom.
    unfold memcpy. cbn [heap set_heap tick].
    rewrite lookup_alter_eq, lookup_insert_eq. cbn [fmap option_fmap option_map default].
    set (w2 := set_heap _ _).
    set (block := store_at (replicate (Z.to_nat size) NUL) 0 _). unfold id.
    assert (Hblock : cstr block = cstr s ++ lit "/").
    { apply (cstr_zero_block (cstr s ++ lit "/")); [apply slash_no_nul|].
      rewrite length_app. simpl length. lia. }
    assert (Hlen : strlen block = Z.of_nat (length (cstr s)) + 1).
    { unfold strlen. rewrite Hblock, length_app. simpl length. lia. }
    assert (Hheap : forall w3, heap w3 = heap w2 -> heap (free p w3) = heap w).
    { intros w3 Heq. unfold free. cbn [heap set_heap]. rewrite Heq.
      subst w2. cbn [heap set_heap]. apply scratch_block_freed. exact Hfresh. }
    split.
    + intros Hfit.
      destruct (dir_holds_update block t w2 path Hholds) as (t' & Hrun & Hholds' & _).
      { rewrite Hlen, Hoff. fold size. lia. }
      rewrite Hrun, Hlen. eexists _, _. split; [reflexivity|].
      rewrite Hblock in Hholds'. split; [exact Hholds'|].
      apply Hheap. reflexivity.
    + intros Hcut.
      assert (Hpos : 0 < size - Z.of_nat (length path)).
      { unfold size. rewrite Hdir, length_app. simpl length. lia. }
      rewrite (trace_dir_update_cut block t w2 (conj Hrange Hsize))
        by (rewrite Hlen, Hoff; fold size; lia).
      eexists _, _. split; [reflexivity|]. split; [reflexivity|].
      apply Hheap. reflexivity.
Qed.

(** A path one character shorter than the buffer passes the length
    test, and its copy with the closing slash and the NUL is one byte
    longer than the scratch block: the sprintf writes past the block. *)
Theorem eal_trace_dir_args_save_overrun (E : env) (s : cstring) (t : trace)
    (w : world) :
  Z.of_nat (length (dir t)) < 2 ^ 31 ->
  strlen s = Z.of_nat (length (dir t)) - 1 ->
  calloc_ok_at E (ticks w) = true ->
  eal_trace_dir_args_save E (Some s) t w = None.
Proof.
  intros Hsize Hlen Hcalloc. unfold eal_trace_dir_args_save.
  unfold to_uint32. rewrite wrap_small by lia.
  destruct (Z.of_nat (length (dir t)) <=? strlen s) eqn:Hle; [lia|].
  unfold calloc. rewrite Hcalloc. unfold sprintf.
  cbn [heap set_heap tick]. rewrite lookup_insert_eq.
  rewrite length_replicate, length_app. cbn [length lit list_ascii_of_string].
  unfold strlen in Hlen.
  destruct (length (cstr s) + 1 + 1 <=? Z.to_nat (Z.of_nat (length (dir t))))%nat
    eqn:Hroom; [apply Nat.leb_le in Hroom; lia|reflexivity].
Qed.

Lemma eal_trace_dir_args_save_outcomes_witness :
  exists t' w',
    eal_trace_dir_args_save sample_env (Some (lit "/var/trace")) sample_trace
      sample_world = Some (11, t', w') /\
    dir_holds t' (lit "/var/trace/") /\
    heap w' = heap sample_world.
Proof.
  destruct (eal_trace_dir_args_save_outcomes sample_env sample_trace sample_world []
              sample_trace_holds) as (_ & _ & _ & Hok).
  destruct (Hok (lit "/var/trace")) as (Hfit & _);
    [vm_compute; reflexivity|reflexivity|].
  destruct Hfit as (t' & w' & Hrun & Hholds & Hheap); [vm_compute; reflexivity|].
  exists t', w'. split; [exact Hrun|]. split; [exact Hholds|exact Hheap].
Defined.

Lemma eal_trace_dir_args_save_overrun_witness :
  strlen (replicate (Z.to_nat 4095) "a"%char) =
    Z.of_nat (length (dir sample_trace)) - 1 /\
  eal_trace_dir_args_save sample_env (Some (replicate (Z.to_nat 4095) "a"%char))
    sample_trace sample_world = None.
Proof.
  assert (Hlen : strlen (replicate (Z.to_nat 4095) "a"%char) =
                 Z.of_nat (length (dir sample_trace)) - 1)
    by (vm_compute; reflexivity).
  split; [exact Hlen|].
  apply (eal_trace_dir_args_save_overrun sample_env _ sample_trace sample_world);
    [vm_compute; reflexivity|exact Hlen|reflexivity].
Defined.

(** ** The default base path *)

(** trace_mkdir builds a default base path only when none is configured.
    Then a failed allocation gives -ENOMEM and a user without HOME and
    without a password entry gives -EINVAL, struct trace staying as it
    was; otherwise the buffer receives the home directory, HOME before
    the password entry, followed by /dpdk-traces/ and cut to the size of
    the buffer less one: too long a path is shortened, never refused.
    The scratch block is freed on every path. *)
Theorem trace_mkdir_default_outcomes (E : env) (t : trace) (w : world) :
  (dir_offset t <> 0 -> trace_mkdir_default E t w = (0, t, w)) /\
  (dir_offset t = 0 -> calloc_ok_at E (ticks w) = false ->
     exists w', trace_mkdir_default E t w = (- ENOMEM, t, w') /\ heap w' = heap w) /\
  (dir_offset t = 0 -> calloc_ok_at E (ticks w) = true ->
   getenv_HOME E = None -> getpwuid_dir E = None ->
     exists w', trace_mkdir_default E t w = (- EINVAL, t, w') /\ heap w' = heap w) /\
  (dir_holds t [] -> calloc_ok_at E (ticks w) = true ->
   forall home,
     getenv_HOME E = Some home \/
     (getenv_HOME E = None /\ getpwuid_dir E = Some home) ->
     exists t' w',
       trace_mkdir_default E t w = (0, t', w') /\
       dir_holds t'
         (take (Z.to_nat (Z.of_nat (length (dir t)) - 1))
            (cstr home ++ lit "/dpdk-traces/")) /\
       heap w' = heap w).
Proof.
  unfold trace_mkdir_default. split; [|split; [|split]].
  - intros Hset. destruct (decide (dir_offset t = 0)); [contradiction|reflexivity].
  - intros Hzero Hcalloc. destruct (decide (dir_offset t = 0)); [|contradiction].
    unfold calloc. rewrite Hcalloc. eexists. split; reflexivity.
  - intros Hzero Hcalloc Henv Hpw.
    destruct (decide (dir_offset t = 0)); [|contradiction].
    unfold calloc, trace_dir_default_path_get. rewrite Hcalloc, Henv, Hpw.
    change (- EINVAL <? 0) with true. cbv iota.
    eexists. split; [reflexivity|].
    unfold free, trace_err. cbn [heap set_heap emit tick].
    apply fresh_block_freed. apply not_elem_of_dom, is_fresh.
  - intros Hholds Hcalloc home Hhome.
    pose proof Hholds as ([Hrange Hsize] & Hoff & _ & rest & Hdir).
    simpl length in Hoff.
    destruct (decide (dir_offset t = 0)) as [_|Hne]; [|contradiction].
    unfold calloc, trace_dir_default_path_get. rewrite Hcalloc.
    assert (Hpick : match getenv_HOME E with
                    | Some h => Some h
                    | None => getpwuid_dir E
                    end = Some home).
    { destruct Hhome as [->|[-> ->]]; reflexivity. }
    rewrite Hpick. unfold snprintf, to_uint32. rewrite wrap_small by lia.
    set (size := Z.of_nat (length (dir t))).
    set (full := cstr home ++ lit "/dpdk-traces/").
    set (text := take (Z.to_nat (size - 1)) full).
    destruct (Z.of_nat (length full) <? 0) eqn:Hneg;
      [apply Z.ltb_lt in Hneg; pose proof (Zle_0_nat (length full)); lia|].
    change (0 <? 0) with false. cbv iota.
    set (p := fresh (dom (heap w))).
    assert (Hfresh : heap w !! p = None) by (apply not_elem_of_dom, is_fresh).
    assert (Hpos : 0 < size).
    { unfold size. rewrite Hdir. simpl length. lia. }
    assert (Htext : NUL ∉ text).
    { apply take_no_nul, not_elem_of_app. split; [apply cstr_no_nul|].
      unfold lit. simpl.
      repeat (apply not_elem_of_cons; split; [discriminate|]). apply not_elem_of_nil. }
    assert (Hshort : (length text <= Z.to_nat (size - 1))%nat)
      by (unfold text; rewrite length_take; lia).
    unfold memcpy. cbn [heap set_heap tick].
    rewrite lookup_alter_eq, lookup_insert_eq.
    cbn [fmap option_fmap option_map default]. unfold id.
    set (w2 := set_heap _ _).
    set (block := store_at (replicate (length (dir t)) NUL) 0 (text ++ [NUL])).
    assert (Hblock : cstr block = text).
    { apply cstr_zero_block; [exact Htext|]. unfold size in *. lia. }
    destruct (dir_holds_update block t w2 [] Hholds) as (t' & Hrun & Hholds' & _).
    { unfold strlen. rewrite Hblock, Hoff. fold size. lia. }
    rewrite Hrun.
    destruct (strlen block <? 0) eqn:Hneg2;
      [apply Z.ltb_lt in Hneg2; unfold strlen in Hneg2; lia|].
    eexists _, _. split; [reflexivity|].
    rewrite Hblock in Hholds'. split; [exact Hholds'|].
    unfold free. cbn [heap set_heap]. subst w2. cbn [heap set_heap].
    apply scratch_block_freed. exact Hfresh.
Qed.

Lemma trace_mkdir_default_outcomes_witness :
  exists t' w',
    trace_mkdir_default sample_env sample_trace sample_world = (0, t', w') /\
    cstr (dir t') = lit "/home/dpdk/dpdk-traces/" /\
    heap w' = heap sample_world.
Proof.
  destruct (trace_mkdir_default_outcomes sample_env sample_trace sample_world)
    as (_ & _ & _ & Hok).
  destruct (Hok sample_trace_holds eq_refl (lit "/home/dpdk") (or_introl eq_refl))
    as (t' & w' & Hrun & Hholds & Hheap).
  exists t', w'. split; [exact Hrun|]. split; [|exact Hheap].
  rewrite (dir_holds_cstr _ _ Hholds). vm_compute. reflexivity.
Defined.

(** ** Creating the session directory *)


Section MkdirRun.

Variable TRACE_PREFIX_LEN : Z.
Variable TRACE_DIR_STR_LEN : Z.



End MkdirRun.


(** ** Saving: the outcome of each file *)

Lemma file_written (h : gmap path (list ascii)) (f : path) (data : list ascii) :
  <[f := default [] (<[f := []]> h !! f) ++ data]> (<[f := []]> h) = <[f := data]> h.
Proof. rewrite lookup_insert_eq. cbn [default app]. apply insert_insert_eq. Qed.

(** trace_meta_save: a metadata file that cannot be opened gives the
    negated errno and no file; otherwise the file holds what the dump
    wrote, and the result is the result of the dump unless fclose fails,
    whose negated errno then replaces it. *)
Theorem trace_meta_save_outcomes (E : env) (t : trace) (w : world) :
  let name := snd (snprintf PATH_MAX (cstr (dir t) ++ lit "/metadata")) in
  match fopen_fault_at E (ticks w) name with
  | Some e =>
      exists w',
        trace_meta_save E t w = (- Z.pos e, w') /\
        files w' = files w /\
        trail w' = trail w ++ [EvFopen name (Some e)]
  | None =>
      exists w',
        trace_meta_save E t w =
          (match fclose_fault_at E (S (S (ticks w))) name with
           | Some e => - Z.pos e
           | None => fst (metadata_dump_at E (S (ticks w)))
           end, w') /\
        files w' = <[name := snd (metadata_dump_at E (S (ticks w)))]> (files w) /\
        trail w' =
          trail w ++
          [ EvFopen name None;
            EvDump name (fst (metadata_dump_at E (S (ticks w))));
            EvFclose name (fclose_fault_at E (S (S (ticks w))) name) ]
  end.
Proof.
  intros name. unfold trace_meta_save.
  pose proof (snprintf_rc PATH_MAX (cstr (dir t) ++ lit "/metadata")) as Hrc.
  fold name. destruct (snprintf PATH_MAX (cstr (dir t) ++ lit "/metadata"))
    as [rc name'] eqn:Hsn. cbn [fst snd] in *. subst name. rewrite Hrc.
  unfold fopen. destruct (fopen_fault_at E (ticks w) name') as [e|].
  - eexists. split; [reflexivity|]. split; reflexivity.
  - unfold rte_trace_metadata_dump. cbn [ticks emit set_files tick].
    destruct (metadata_dump_at E (S (ticks w))) as [rcd text]. cbn [fst snd].
    unfold fclose. cbn [ticks emit set_files tick file_append].
    destruct (fclose_fault_at E (S (S (ticks w))) name') as [e|].
    + destruct (decide (-1 = 0)) as [Habs|_]; [lia|].
      eexists. split; [reflexivity|]. world_cbn.
      split; [apply file_written|]. rewrite <- !app_assoc. reflexivity.
    + destruct (decide (0 = 0)) as [_|Habs]; [|contradiction].
      eexists. split; [reflexivity|]. world_cbn.
      split; [apply file_written|]. rewrite <- !app_assoc. reflexivity.
Qed.

Section SaveOutcomes.

Variable STREAM_HEADER_SIZE : Z.

(** trace_mem_save writes exactly the stream header and the bytes below
    the write offset.  A file that cannot be opened gives the negated
    errno and no file; a complete write followed by a clean close gives
    0 and a file holding those bytes; a short write gives -EACCES; and a
    failed fclose gives its negated errno, whatever the write did. *)
Theorem trace_mem_save_outcomes (E : env) (t : trace) (hdr : trace_header)
    (cnt : Z) (w : world) :
  0 < STREAM_HEADER_SIZE + hdr_offset hdr < 2 ^ 31 ->
  STREAM_HEADER_SIZE + hdr_offset hdr <= Z.of_nat (length (hdr_stream hdr)) ->
  let name := snd (channel_name t cnt) in
  let data := region_bytes STREAM_HEADER_SIZE hdr in
  Z.of_nat (length data) = STREAM_HEADER_SIZE + hdr_offset hdr /\
  match fopen_fault_at E (ticks w) name with
  | Some e =>
      exists w',
        trace_mem_save STREAM_HEADER_SIZE E t hdr cnt w = (- Z.pos e, w') /\
        files w' = files w
  | None =>
      match fclose_fault_at E (S (S (ticks w))) name with
      | Some e =>
          exists w', trace_mem_save STREAM_HEADER_SIZE E t hdr cnt w = (- Z.pos e, w')
      | None =>
          match fwrite_short_at E (S (ticks w)) name with
          | Some n =>
              exists w',
                trace_mem_save STREAM_HEADER_SIZE E t hdr cnt w = (- EACCES, w') /\
                files w' =
                  <[name := take (Nat.min n (pred (length data))) data]> (files w)
          | None =>
              exists w',
                trace_mem_save STREAM_HEADER_SIZE E t hdr cnt w = (0, w') /\
                files w' = <[name := data]> (files w)
          end
      end
  end.
Proof.
  intros Hsz Hmem name data.
  assert (Hlen : Z.of_nat (length data) = STREAM_HEADER_SIZE + hdr_offset hdr).
  { unfold data, region_bytes, trace_file_sz. rewrite to_int_small by lia.
    unfold to_uint64. rewrite wrap_small by lia. rewrite length_take. lia. }
  split; [exact Hlen|].
  unfold trace_mem_save.
  pose proof (snprintf_rc PATH_MAX
    (cstr (dir t) ++ lit "/channel0_" ++ decimal (to_int cnt))) as Hrc.
  unfold name, channel_name in *.
  destruct (snprintf PATH_MAX (cstr (dir t) ++ lit "/channel0_" ++ decimal (to_int cnt)))
    as [rc name']. cbn [fst snd] in *. rewrite Hrc.
  unfold fopen. destruct (fopen_fault_at E (ticks w) name') as [e|].
  - eexists. split; reflexivity.
  - unfold fwrite. fold data.
    destruct data as [|b rest] eqn:Hdata; [simpl in Hlen; lia|].
    cbn [ticks emit set_files tick].
    unfold fclose.
    destruct (fwrite_short_at E (S (ticks w)) name') as [n|];
      cbn [ticks emit set_files tick file_append];
      destruct (fclose_fault_at E (S (S (ticks w))) name') as [e|].
    + destruct (decide (-1 = 0)) as [Habs|_]; [lia|]. eexists. reflexivity.
    + destruct (decide (0 = 0)) as [_|Habs]; [|contradiction].
      destruct (decide (0 = 1)) as [Habs|_]; [lia|].
      eexists. split; [reflexivity|]. world_cbn. apply file_written.
    + destruct (decide (-1 = 0)) as [Habs|_]; [lia|]. eexists. reflexivity.
    + destruct (decide (0 = 0)) as [_|Habs]; [|contradiction].
      destruct (decide (1 = 1)) as [_|Habs]; [|contradiction].
      eexists. split; [reflexivity|]. world_cbn. apply file_written.
Qed.

End SaveOutcomes.

Lemma trace_mem_save_outcomes_witness :
  exists w',
    trace_mem_save 56 sample_env three_regions (TraceHeader 2 (replicate 64 "a"%char))
      0 sample_world = (0, w') /\
    files w' = <[lit "/t/s/channel0_0" := replicate 58 "a"%char]> (files sample_world).
Proof.
  destruct (trace_mem_save_outcomes 56 sample_env three_regions
              (TraceHeader 2 (replicate 64 "a"%char)) 0 sample_world)
    as (_ & Hcase); [simpl; lia|simpl; lia|].
  simpl in Hcase. exact Hcase.
Defined.

(** ** Saving: what is left alone *)

Lemma files_only_refl (w : world) : files_only w w.
Proof. unfold files_only. repeat split; lia. Qed.

Lemma files_only_trans (w1 w2 w3 : world) :
  files_only w1 w2 -> files_only w2 w3 -> files_only w1 w3.
Proof.
  intros (Hd1 & Hh1 & Hr1 & Ht1) (Hd2 & Hh2 & Hr2 & Ht2).
  repeat split; try congruence. lia.
Qed.

Lemma fopen_files_only (E : env) (p : path) (w : world) :
  files_only w (snd (fopen E p w)).
Proof.
  unfold fopen. destruct (fopen_fault_at E (ticks w) p);
    cbn [snd]; unfold files_only; simpl; repeat split; lia.
Qed.

Lemma fwrite_files_only (E : env) (data : list ascii) (f : FILE) (w : world) :
  files_only w (snd (fwrite E data f w)).
Proof.
  unfold fwrite. destruct data; [apply files_only_refl|].
  destruct (fwrite_short_at E (ticks w) f); cbn [snd]; unfold files_only; simpl; repeat split; lia.
Qed.

Lemma fclose_files_only (E : env) (f : FILE) (w : world) :
  files_only w (snd (fclose E f w)).
Proof.
  unfold fclose. destruct (fclose_fault_at E (ticks w) f);
    cbn [snd]; unfold files_only; simpl; repeat split; lia.
Qed.

Lemma trace_meta_save_files_only (E : env) (t : trace) (w : world) :
  files_only w (snd (trace_meta_save E t w)).
Proof.
  unfold trace_meta_save.
  destruct (snprintf PATH_MAX (cstr (dir t) ++ lit "/metadata")) as [rc name].
  destruct (rc <? 0); [apply files_only_refl|].
  pose proof (fopen_files_only E name w) as Hopen.
  destruct (fopen E name w) as [[f|] w1]; cbn [snd] in *; [|exact Hopen].
  unfold rte_trace_metadata_dump.
  destruct (metadata_dump_at E (ticks w1)) as [rcd text].
  set (w2 := emit _ _).
  assert (Hdump : files_only w1 w2) by (unfold files_only; simpl; repeat split; lia).
  pose proof (fclose_files_only E f w2) as Hclose.
  destruct (fclose E f w2) as [closed w3]. cbn [snd] in *.
  exact (files_only_trans _ _ _ Hopen (files_only_trans _ _ _ Hdump Hclose)).
Qed.

Section SaveFrame.

Variable STREAM_HEADER_SIZE : Z.
Variable E : env.

Lemma trace_mem_save_files_only (t : trace) (hdr : trace_header) (cnt : Z)
    (w : world) :
  files_only w (snd (trace_mem_save STREAM_HEADER_SIZE E t hdr cnt w)).
Proof.
  unfold trace_mem_save. destruct (channel_name t cnt) as [rc name].
  destruct (rc <? 0); [apply files_only_refl|].
  pose proof (fopen_files_only E name w) as Hopen.
  destruct (fopen E name w) as [[f|] w1]; cbn [snd] in *; [|exact Hopen].
  pose proof (fwrite_files_only E (region_bytes STREAM_HEADER_SIZE hdr) f w1) as Hwrite.
  destruct (fwrite E (region_bytes STREAM_HEADER_SIZE hdr) f w1) as [n w2].
  pose proof (fclose_files_only E f w2) as Hclose.
  destruct (fclose E f w2) as [closed w3]. cbn [snd] in *.
  exact (files_only_trans _ _ _ Hopen (files_only_trans _ _ _ Hwrite Hclose)).
Qed.

Lemma trace_save_loop_files_only (t : trace) (regions : list trace_header) :
  forall count rc w,
    files_only w (snd (trace_save_loop STREAM_HEADER_SIZE E t regions count rc w)).
Proof.
  induction regions as [|hdr rest IH]; intros count rc w; simpl;
    [apply files_only_refl|].
  pose proof (trace_mem_save_files_only t hdr count w) as Hone.
  destruct (trace_mem_save STREAM_HEADER_SIZE E t hdr count w) as [rc1 w1].
  cbn [snd] in Hone. destruct (decide (rc1 = 0)); [|exact Hone].
  exact (files_only_trans _ _ _ Hone (IH _ _ _)).
Qed.

(** rte_trace_save changes nothing of struct trace but the lock, which
    it leaves free whenever it took it; it creates no directory,
    allocates and frees nothing, and leaves rte_errno alone: only files,
    the trail, errno and the call count can change. *)
Theorem rte_trace_save_frame (t : trace) (w : world) :
  (snd (fst (rte_trace_save STREAM_HEADER_SIZE E t w)) = t \/
   snd (fst (rte_trace_save STREAM_HEADER_SIZE E t w)) = set_lock false t) /\
  files_only w (snd (rte_trace_save STREAM_HEADER_SIZE E t w)).
Proof.
  unfold rte_trace_save.
  destruct (decide (nb_trace_mem_list t = 0)) as [Hzero|Hsome].
  { cbn [fst snd]. split; [left; reflexivity|apply files_only_refl]. }
  pose proof (trace_meta_save_files_only E t w) as Hmeta.
  destruct (trace_meta_save E t w) as [rc0 w1]. cbn [snd] in Hmeta.
  destruct (decide (rc0 = 0)) as [->|Hfail].
  - unfold rte_spinlock_lock, rte_spinlock_unlock.
    pose proof (trace_save_loop_files_only (set_lock true t)
                  (take (Z.to_nat (nb_trace_mem_list t)) (lcore_meta t)) 0 0
                  (emit EvLock w1)) as Hloop.
    destruct (trace_save_loop STREAM_HEADER_SIZE E (set_lock true t)
                (take (Z.to_nat (nb_trace_mem_list t)) (lcore_meta t)) 0 0
                (emit EvLock w1)) as [rc w3].
    cbn [fst snd] in *. split; [right; destruct t; reflexivity|].
    assert (Hlock : files_only w1 (emit EvLock w1))
      by (unfold files_only; simpl; repeat split; lia).
    assert (Hunlock : files_only w3 (emit EvUnlock w3))
      by (unfold files_only; simpl; repeat split; lia).
    exact (files_only_trans _ _ _ Hmeta
             (files_only_trans _ _ _ Hlock (files_only_trans _ _ _ Hloop Hunlock))).
  - cbn [fst snd]. split; [left; reflexivity|exact Hmeta].
Qed.

End SaveFrame.


(** ** Session identity: registration order *)

Lemma total_size_perm (mask : Z) (tps1 tps2 : list trace_point) :
  tps1 ≡ₚ tps2 -> total_size mask tps1 = total_size mask tps2.
Proof.
  induction 1 as [|tp l1 l2 _ IH|a b l|l1 l2 l3 _ IH1 _ IH2]; simpl; lia.
Qed.

(** The UUID does not depend on the order in which the trace points were
    registered, and generating it changes no other field of struct
    trace. *)
Theorem trace_uuid_generate_order (mask : Z)
    (uuid_init : Z -> Z -> Z -> Z -> Z -> list Z)
    (tps1 tps2 : list trace_point) (t : trace) :
  tps1 ≡ₚ tps2 ->
  trace_uuid_generate mask uuid_init tps1 t =
    trace_uuid_generate mask uuid_init tps2 t /\
  set_uuid (uuid t) (trace_uuid_generate mask uuid_init tps1 t) = t.
Proof.
  intros Hperm. unfold trace_uuid_generate. cbv zeta.
  rewrite !sz_total_loop_mod, (total_size_perm mask _ _ Hperm).
  split; [reflexivity|]. destruct t. reflexivity.
Qed.

Lemma trace_uuid_generate_order_witness :
  trace_uuid_generate 0xffff rte_uuid_init_layout
    [ TracePoint (lit "lib.eal.generic.u8") 0x10008;
      TracePoint (lit "lib.eal.generic.u16") 0x20010 ] three_regions =
  trace_uuid_generate 0xffff rte_uuid_init_layout
    [ TracePoint (lit "lib.eal.generic.u16") 0x20010;
      TracePoint (lit "lib.eal.generic.u8") 0x10008 ] three_regions.
Proof.
  apply (trace_uuid_generate_order 0xffff rte_uuid_init_layout).
  apply Permutation_swap.
Defined.

(** ** Trace point validator: which name is reported *)

Section FirstDuplicate.

Variable N : nat.

Lemma trace_entry_compare_loop_namesake (tps : list trace_point) (i : nat)
    (tp : trace_point) :
  tps !! i = Some tp ->
  (trace_entry_compare_loop N tps (tp_name tp) 0 = true <-> has_namesake N tps i).
Proof.
  intros Hi. rewrite trace_entry_compare_loop_zero. split.
  - intros (a & b & x & y & Hab & Ha & Hb & Hx & Hy).
    destruct (decide (a = i)) as [->|Hne].
    + exists tp, b, y. repeat split; auto. lia.
    + exists tp, a, x. repeat split; auto.
  - intros (tp0 & j & tp' & Hi' & Hj & Hij & Hcmp).
    assert (tp0 = tp) by congruence. subst tp0.
    destruct (Nat.lt_total i j) as [Hlt|[Heq|Hgt]]; [|congruence|].
    + exists i, j, tp, tp'. repeat split; auto. apply strncmp_refl.
    + exists j, i, tp', tp. repeat split; auto. apply strncmp_refl.
Qed.

Lemma trace_has_duplicate_entry_loop_first (tps pending : list trace_point)
    (w : world) :
  forall i tp,
    pending !! i = Some tp ->
    trace_entry_compare_loop N tps (tp_name tp) 0 = true ->
    (forall i' tp', (i' < i)%nat -> pending !! i' = Some tp' ->
       trace_entry_compare_loop N tps (tp_name tp') 0 = false) ->
    trace_has_duplicate_entry_loop N tps pending w =
      (true, duplicate_reported (tp_name tp) w).
Proof.
  induction pending as [|hd rest IH]; intros i tp Hi Hdup Hbefore.
  - destruct i; discriminate.
  - simpl. unfold trace_entry_compare. destruct i as [|i].
    + simpl in Hi. injection Hi as ->. rewrite Hdup. reflexivity.
    + rewrite (Hbefore 0%nat hd ltac:(lia) eq_refl).
      apply (IH i tp Hi Hdup). intros i' tp' Hlt Hi'.
      apply (Hbefore (S i') tp'); [lia|exact Hi'].
Qed.

(** The name reported is that of the first point, in registration order,
    that has a namesake. *)
Theorem trace_has_duplicate_entry_first (tps : list trace_point) (w : world)
    (i : nat) :
  has_namesake N tps i ->
  (forall i', (i' < i)%nat -> ~ has_namesake N tps i') ->
  exists tp,
    tps !! i = Some tp /\
    trace_has_duplicate_entry N tps w = (true, duplicate_reported (tp_name tp) w).
Proof.
  intros Hdup Hfirst. pose proof Hdup as (tp & j & tp' & Hi & _).
  exists tp. split; [exact Hi|].
  apply (trace_has_duplicate_entry_loop_first tps tps w i tp Hi).
  - apply (trace_entry_compare_loop_namesake tps i tp Hi). exact Hdup.
  - intros i' tp0 Hlt Hi'.
    destruct (trace_entry_compare_loop N tps (tp_name tp0) 0) eqn:Hc; [|reflexivity].
    exfalso. apply (Hfirst i' Hlt).
    apply (trace_entry_compare_loop_namesake tps i' tp0 Hi'). exact Hc.
Qed.

End FirstDuplicate.

Lemma trace_has_duplicate_entry_first_witness :
  trace_has_duplicate_entry 64
    [ TracePoint (lit "lib.eal.a") 8; TracePoint (lit "lib.eal.b") 16;
      TracePoint (lit "lib.eal.c") 16; TracePoint (lit "lib.eal.c") 32;
      TracePoint (lit "lib.eal.b") 32 ] sample_world =
    (true, duplicate_reported (lit "lib.eal.b") sample_world).
Proof.
  destruct (trace_has_duplicate_entry_first 64
    [ TracePoint (lit "lib.eal.a") 8; TracePoint (lit "lib.eal.b") 16;
      TracePoint (lit "lib.eal.c") 16; TracePoint (lit "lib.eal.c") 32;
      TracePoint (lit "lib.eal.b") 32 ] sample_world 1) as (tp & Hat & Hrun).
  - exists (TracePoint (lit "lib.eal.b") 16), 4%nat, (TracePoint (lit "lib.eal.b") 32).
    repeat split. lia.
  - intros i' Hlt (tp & j & tp' & Hi & Hj & Hne & Hcmp).
    assert (i' = 0%nat) by lia. subst i'. simpl in Hi. injection Hi as <-.
    destruct j as [|[|[|[|[|j]]]]]; simpl in Hj; try discriminate; try lia;
      injection Hj as <-; vm_compute in Hcmp; discriminate.
  - simpl in Hat. injection Hat as <-. exact Hrun.
Defined.

(** ** Replaying a pattern *)

Section ApplyFacts.

Variable rte_trace_regexp : cstring -> bool -> world -> Z * world.

(** trace_args_apply returns -1 when the pattern cannot be duplicated or
    the filter engine returns a negative value, and 0 otherwise.  The
    engine is given a copy of the pattern, ended by its NUL, in enable
    mode; with an engine that leaves the heap alone, the copy is freed
    on every path. *)
Theorem trace_args_apply_outcomes (E : env) (arg : cstring) (w : world) :
  (forall s b w0, heap (snd (rte_trace_regexp s b w0)) = heap w0) ->
  (calloc_ok_at E (ticks w) = false ->
   exists w', trace_args_apply rte_trace_regexp E arg w = (-1, w') /\
              heap w' = heap w) /\
  (calloc_ok_at E (ticks w) = true ->
   exists w1 w',
     heap w1 = <[fresh (dom (heap w)) := cstr arg ++ [NUL]]> (heap w) /\
     trace_args_apply rte_trace_regexp E arg w =
       (if fst (rte_trace_regexp (cstr arg ++ [NUL]) true w1) <? 0 then -1 else 0,
        w') /\
     heap w' = heap w).
Proof.
  intros Hframe. unfold trace_args_apply, strdup. split.
  - intros ->. eexists. split; reflexivity.
  - intros ->. set (p := fresh (dom (heap w))).
    assert (Hfresh : heap w !! p = None) by (apply not_elem_of_dom, is_fresh).
    set (w1 := set_heap _ (tick w)).
    assert (Hheap1 : heap w1 = <[p := cstr arg ++ [NUL]]> (heap w)) by reflexivity.
    assert (Hlook : heap w1 !! p = Some (cstr arg ++ [NUL]))
      by (rewrite Hheap1; apply lookup_insert_eq).
    exists w1. rewrite Hlook. cbn [default]. unfold id.
    pose proof (Hframe (cstr arg ++ [NUL]) true w1) as Hsame.
    destruct (rte_trace_regexp (cstr arg ++ [NUL]) true w1) as [rc w2].
    cbn [fst snd] in *.
    assert (Hfreed : delete p (heap w2) = heap w).
    { rewrite Hsame, Hheap1. apply fresh_block_freed. exact Hfresh. }
    destruct (rc <? 0); eexists; (split; [exact Hheap1|]);
      (split; [reflexivity|exact Hfreed]).
Qed.

End ApplyFacts.

Lemma trace_args_apply_outcomes_witness :
  exists w',
    trace_args_apply (fun s _ w0 => (if decide (cstr s = lit "lib.eal.*") then 0 else -1, w0))
      sample_env (lit "lib.eal.*") sample_world = (0, w') /\
    heap w' = heap sample_world.
Proof.
  destruct (trace_args_apply_outcomes
              (fun s _ w0 => (if decide (cstr s = lit "lib.eal.*") then 0 else -1, w0))
              sample_env (lit "lib.eal.*") sample_world) as (_ & Hok);
    [reflexivity|].
  destruct (Hok eq_refl) as (w1 & w' & _ & Hrun & Hheap).
  exists w'. split; [exact Hrun|exact Hheap].
Defined.

(** ** Session names: a prefix that is too long *)

Section PrefixCut.

Variable TRACE_PREFIX_LEN : Z.
Variable TRACE_DIR_STR_LEN : Z.

(** With a prefix of TRACE_PREFIX_LEN characters or more, and a session
    buffer that leaves the timestamp 23 bytes behind the prefix or less,
    trace_session_name_generate never produces a timestamp: the buffer
    keeps the first TRACE_PREFIX_LEN - 1 characters of the prefix as its
    C string, and the result is the negated errno that earlier calls
    left, which is 0 when errno is 0. *)
Theorem trace_session_name_generate_prefix_cut (E : env) (buf : list ascii)
    (w : world) (now : Z) (r : tm) :
  0 < TRACE_PREFIX_LEN -> TRACE_PREFIX_LEN < TRACE_DIR_STR_LEN ->
  TRACE_DIR_STR_LEN <= TRACE_PREFIX_LEN + 23 ->
  Z.of_nat (length buf) = TRACE_DIR_STR_LEN ->
  time_at E (ticks w) = Ok now -> to_int now <> -1 ->
  localtime_of E now = Ok r ->
  TRACE_PREFIX_LEN <= strlen (hugefile_prefix E) ->
  1000 <= tm_year r + 1900 <= 9999 ->
  exists buf' w',
    trace_session_name_generate TRACE_PREFIX_LEN TRACE_DIR_STR_LEN E buf w =
      (- errno w, buf', w') /\
    cstr buf' = take (Z.to_nat (TRACE_PREFIX_LEN - 1)) (cstr (hugefile_prefix E)) /\
    buf' !! Z.to_nat TRACE_PREFIX_LEN = Some "-"%char /\
    errno w' = errno w.
Proof.
  intros Hpl Hdl Hshort Hbuf Htime Hnow Hlocal Hprefix Hyear.
  unfold strlen in Hprefix.
  unfold trace_session_name_generate, time, localtime. rewrite Htime.
  destruct (decide (to_int now = -1)) as [Heq|_]; [congruence|].
  rewrite Hlocal. unfold rte_strscpy.
  destruct (length (cstr (hugefile_prefix E)) <? Z.to_nat TRACE_PREFIX_LEN)%nat
    eqn:Hfit; [apply Nat.ltb_lt in Hfit; lia|].
  destruct (decide (- E2BIG = - E2BIG)) as [_|Hne]; [|contradiction].
  destruct (Z.to_nat TRACE_PREFIX_LEN) as [|room] eqn:Hroom; [lia|].
  set (cut := take room (cstr (hugefile_prefix E))).
  assert (Hcut : length cut = room) by (unfold cut; rewrite length_take; lia).
  assert (Hstore : store_at buf 0 (cut ++ [NUL]) = (cut ++ [NUL]) ++ drop (S room) buf).
  { unfold store_at. cbn [take app Nat.add]. rewrite length_app, Hcut.
    simpl length. replace (room + 1)%nat with (S room) by lia. reflexivity. }
  rewrite Hstore.
  assert (Hinsert : <[S room := "-"%char]> ((cut ++ [NUL]) ++ drop (S room) buf) =
                    (cut ++ [NUL]) ++ "-"%char :: drop (S (S room)) buf).
  { rewrite insert_app_r_alt by (rewrite length_app, Hcut; simpl; lia).
    rewrite length_app, Hcut. simpl length.
    replace (S room - (room + 1))%nat with 0%nat by lia.
    destruct (drop (S room) buf) as [|c rest] eqn:Hdrop.
    - apply (f_equal length) in Hdrop. rewrite length_drop in Hdrop. simpl in Hdrop. lia.
    - simpl. f_equal. f_equal.
      replace (S (S room)) with (S room + 1)%nat by lia.
      rewrite <- drop_drop, Hdrop. reflexivity. }
  rewrite Hinsert. unfold strftime. rewrite strftime_text_session.
  rewrite (session_stamp_length r Hyear).
  destruct (Z.of_nat 22 <? TRACE_DIR_STR_LEN - (TRACE_PREFIX_LEN + 1)) eqn:Hstamp;
    [apply Z.ltb_lt in Hstamp; lia|].
  destruct (decide (0 = 0)) as [_|Habs]; [|contradiction].
  unfold session_name_fail. cbn [errno rte_errno set_rte_errno tick].
  eexists _, _. split; [reflexivity|].
  replace (Z.to_nat (TRACE_PREFIX_LEN - 1)) with room by lia. fold cut.
  split; [|split; [|reflexivity]].
  - rewrite <- app_assoc. cbn [app]. apply cstr_app_nul.
    apply take_no_nul, cstr_no_nul.
  - rewrite lookup_app_r by (rewrite length_app, Hcut; simpl; lia).
    rewrite length_app, Hcut. simpl length.
    replace (S room - (room + 1))%nat with 0%nat by lia. reflexivity.
Qed.

End PrefixCut.

Lemma trace_session_name_generate_prefix_cut_witness :
  exists buf' w',
    trace_session_name_generate 12 35 long_prefix_env (replicate 35 NUL) sample_world =
      (0, buf', w') /\
    cstr buf' = lit "dpdk_testap".
Proof.
  destruct (trace_session_name_generate_prefix_cut 12 35 long_prefix_env
              (replicate 35 NUL) sample_world 1587654429 (Tm 9 7 15 23 3 120))
    as (buf' & w' & Hrun & Hname & _);
    [lia|lia|lia|reflexivity|reflexivity|vm_compute; congruence|reflexivity
    |vm_compute; congruence|simpl; lia|].
  exists buf', w'. split; [exact Hrun|]. rewrite Hname. reflexivity.
Defined.

(** ** File names *)

(** The files of one save do not collide as long as snprintf cuts no
    name: regions with different numbers get different files, and no
    region file is the metadata file.  With a directory so long that the
    region number falls behind PATH_MAX, every region gets the same file
    name. *)
Theorem trace_file_names_distinct (t : trace) (i j : Z) :
  - 2 ^ 31 <= i < 2 ^ 31 -> - 2 ^ 31 <= j < 2 ^ 31 -> i <> j ->
  (fst (channel_name t i) < PATH_MAX -> fst (channel_name t j) < PATH_MAX ->
   snd (channel_name t i) <> snd (channel_name t j)) /\
  (fst (channel_name t i) < PATH_MAX ->
   snd (channel_name t i) <> snd (snprintf PATH_MAX (cstr (dir t) ++ lit "/metadata"))) /\
  (PATH_MAX - 1 <= strlen (dir t) + 10 ->
   snd (channel_name t i) = snd (channel_name t j)).
Proof.
  intros Hi Hj Hne. split; [|split].
  - apply channel_name_distinct; assumption.
  - unfold channel_name, snprintf. cbn [fst snd]. intros Hfit.
    rewrite (take_ge (_ ++ lit "/channel0_" ++ _)) by lia.
    rewrite !length_app in Hfit.
    change (length (lit "/channel0_")) with 10%nat in Hfit.
    rewrite take_ge
      by (rewrite length_app; change (length (lit "/metadata")) with 9%nat; lia).
    intros Heq. apply app_inv_head in Heq. discriminate Heq.
  - unfold channel_name, snprintf, strlen. cbn [snd]. intros Hlong.
    rewrite !(app_assoc (cstr (dir t)) (lit "/channel0_")).
    assert (Hlen : (Z.to_nat (PATH_MAX - 1) <= length (cstr (dir t) ++ lit "/channel0_"))%nat)
      by (rewrite length_app; change (length (lit "/channel0_")) with 10%nat; lia).
    rewrite (take_app_le _ (decimal (to_int i))) by exact Hlen.
    rewrite (take_app_le _ (decimal (to_int j))) by exact Hlen.
    reflexivity.
Qed.

Lemma trace_file_names_distinct_witness :
  snd (channel_name three_regions 0) <> snd (channel_name three_regions 1) /\
  snd (channel_name three_regions 0) <>
    snd (snprintf PATH_MAX (cstr (dir three_regions) ++ lit "/metadata")).
Proof.
  destruct (trace_file_names_distinct three_regions 0 1) as (Hregions & Hmeta & _);
    [lia|lia|lia|].
  split.
  - apply Hregions; vm_compute; reflexivity.
  - apply Hmeta; vm_compute; reflexivity.
Defined.
